(** * Elevator simulation: a shallow embedding of [elevator_simulation.js]

    The classes [FloorRequest], [Elevator] and [ElevatorController] are
    embedded as records with explicit state passing: a method that mutates
    [this] and returns a value becomes a function returning the value paired
    with the new object.  Floors are JavaScript numbers used as integers and
    are modelled by [Z].  Comparisons of such numbers are exact; their sums
    and differences are exact as long as the result has magnitude at most
    [2 ^ 53], which [exactFloor] below ensures for the distances and scores
    the code computes.  Console output is not modelled.  The awaited timers
    ([_wait]) only let time pass, so a cycle is a sequential composition of
    its phases; [Async] below keeps the points at which a cycle is
    suspended. *)

From stdpp Require Import base decidable list numbers sorting strings.

Local Open Scope Z_scope.

(** ** Enumerations *)

(** [Direction = { UP: 1, DOWN: -1, IDLE: 0 }] *)
Inductive Direction := UP | DOWN | IDLE.

Definition Direction_value (d : Direction) : Z :=
  match d with UP => 1 | DOWN => -1 | IDLE => 0 end.

#[global] Instance Direction_eq_dec : EqDecision Direction.
Proof. solve_decision. Defined.

(** [DoorState = { OPEN, CLOSED, OPENING, CLOSING }] *)
Inductive DoorState := OPEN | CLOSED | OPENING | CLOSING.

#[global] Instance DoorState_eq_dec : EqDecision DoorState.
Proof. solve_decision. Defined.

(** ** JavaScript built-ins used by the program *)

(** [Set.prototype.add]: a [Set] keeps its elements in insertion order and
    ignores an element it already holds. *)
Definition Set_add (x : Z) (s : list Z) : list Z :=
  if decide (x ∈ s) then s else s ++ [x].

(** [new Set(array)] *)
Definition Set_of (l : list Z) : list Z :=
  foldl (fun s x => Set_add x s) [] l.

(** [Math.min(...xs)] and [Math.max(...xs)] on the spread of a non-empty
    array whose first element is [x]. *)
Definition Math_min (x : Z) (xs : list Z) : Z := foldl Z.min x xs.
Definition Math_max (x : Z) (xs : list Z) : Z := foldl Z.max x xs.

(** [array.sort((a, b) => a - b)]: ascending numeric order. *)
Definition sort_asc (l : list Z) : list Z := merge_sort Z.le l.

(** [array.indexOf(x)] followed by [array.splice(index, 1)] when the index
    is not [-1]: the first occurrence of [x] is dropped. *)
Fixpoint splice_first (x : Z) (l : list Z) : list Z :=
  match l with
  | [] => []
  | y :: l' => if decide (y = x) then l' else y :: splice_first x l'
  end.

(** ** class FloorRequest *)

Module FloorRequest.

Record t := new {
  floor : Z;
  direction : Direction;
  timestamp : Z
}.

End FloorRequest.

(** ** class Elevator *)

Module Elevator.

Record t := mk {
  elevatorId : Z;
  minFloor : Z;
  maxFloor : Z;
  currentFloor : Z;
  direction : Direction;
  doorState : DoorState;
  floorRequests : list Z;
  hallRequests : list FloorRequest.t;
  isMoving : bool;
  capacity : Z;
  currentPassengers : Z;
  floorTravelTime : Z;
  doorOperationTime : Z;
  stopTime : Z
}.

(** [constructor(elevatorId, minFloor = 1, maxFloor = 10)] *)
Definition new (elevatorId minFloor maxFloor : Z) : t :=
  {| elevatorId := elevatorId;
     minFloor := minFloor;
     maxFloor := maxFloor;
     currentFloor := 1;
     direction := IDLE;
     doorState := CLOSED;
     floorRequests := [];
     hallRequests := [];
     isMoving := false;
     capacity := 8;
     currentPassengers := 0;
     floorTravelTime := 2000;
     doorOperationTime := 1500;
     stopTime := 3000 |}.

(** Field assignments [this.x = v]. *)
Definition set_currentFloor (v : Z) (e : t) : t :=
  mk (elevatorId e) (minFloor e) (maxFloor e) v (direction e) (doorState e)
     (floorRequests e) (hallRequests e) (isMoving e) (capacity e)
     (currentPassengers e) (floorTravelTime e) (doorOperationTime e) (stopTime e).

Definition set_direction (v : Direction) (e : t) : t :=
  mk (elevatorId e) (minFloor e) (maxFloor e) (currentFloor e) v (doorState e)
     (floorRequests e) (hallRequests e) (isMoving e) (capacity e)
     (currentPassengers e) (floorTravelTime e) (doorOperationTime e) (stopTime e).

Definition set_doorState (v : DoorState) (e : t) : t :=
  mk (elevatorId e) (minFloor e) (maxFloor e) (currentFloor e) (direction e) v
     (floorRequests e) (hallRequests e) (isMoving e) (capacity e)
     (currentPassengers e) (floorTravelTime e) (doorOperationTime e) (stopTime e).

Definition set_floorRequests (v : list Z) (e : t) : t :=
  mk (elevatorId e) (minFloor e) (maxFloor e) (currentFloor e) (direction e)
     (doorState e) v (hallRequests e) (isMoving e) (capacity e)
     (currentPassengers e) (floorTravelTime e) (doorOperationTime e) (stopTime e).

Definition set_hallRequests (v : list FloorRequest.t) (e : t) : t :=
  mk (elevatorId e) (minFloor e) (maxFloor e) (currentFloor e) (direction e)
     (doorState e) (floorRequests e) v (isMoving e) (capacity e)
     (currentPassengers e) (floorTravelTime e) (doorOperationTime e) (stopTime e).

Definition set_isMoving (v : bool) (e : t) : t :=
  mk (elevatorId e) (minFloor e) (maxFloor e) (currentFloor e) (direction e)
     (doorState e) (floorRequests e) (hallRequests e) v (capacity e)
     (currentPassengers e) (floorTravelTime e) (doorOperationTime e) (stopTime e).

(** [_isValidFloor(floor)] *)
Definition _isValidFloor (e : t) (floor : Z) : bool :=
  bool_decide (floor >= minFloor e) && bool_decide (floor <= maxFloor e).

(** [requestFloor(floor)]: a request from inside the cabin. *)
Definition requestFloor (e : t) (floor : Z) : bool * t :=
  if negb (_isValidFloor e floor) then (false, e)
  else if bool_decide (floor = currentFloor e)
          && bool_decide (doorState e = CLOSED) then (true, e)
  else if negb (bool_decide (floor ∈ floorRequests e)) then
    (true, set_floorRequests (sort_asc (floorRequests e ++ [floor])) e)
  else (true, e).

(** [callElevator(floor, direction)]: a request from a hall button.
    [now] is the value [Date.now()] gives the new [FloorRequest]. *)
Definition callElevator (e : t) (now : Z) (floor : Z) (direction : Direction)
  : bool * t :=
  if negb (_isValidFloor e floor) then (false, e)
  else if (bool_decide (floor = maxFloor e) && bool_decide (direction = UP))
          || (bool_decide (floor = minFloor e) && bool_decide (direction = DOWN))
  then (false, e)
  else
    let existingRequest :=
      find (fun req => bool_decide (FloorRequest.floor req = floor)
                       && bool_decide (FloorRequest.direction req = direction))
           (hallRequests e) in
    match existingRequest with
    | None =>
        let request := FloorRequest.new floor direction now in
        (true, set_hallRequests (hallRequests e ++ [request]) e)
    | Some _ => (true, e)
    end.

(** The test of the loop over [this.hallRequests] in
    [_getNextDestination]: does this hall request contribute its floor? *)
Definition hallContributes (e : t) (request : FloorRequest.t) : bool :=
  bool_decide (direction e = IDLE)
  || bool_decide (FloorRequest.direction request = direction e)
  || bool_decide (FloorRequest.floor request = currentFloor e)
  || (bool_decide (direction e = UP)
      && bool_decide (FloorRequest.floor request > currentFloor e))
  || (bool_decide (direction e = DOWN)
      && bool_decide (FloorRequest.floor request < currentFloor e)).

(** The set [allFloors] once the loop over the hall requests is done. *)
Definition allFloors (e : t) : list Z :=
  foldl (fun s request =>
           if hallContributes e request
           then Set_add (FloorRequest.floor request) s else s)
        (Set_of (floorRequests e)) (hallRequests e).

(** The callback of [floorsArray.reduce] in the fallback. *)
Definition closer (e : t) (closest current : Z) : Z :=
  if bool_decide (Z.abs (current - currentFloor e)
                  < Z.abs (closest - currentFloor e))
  then current else closest.

(** [_getNextDestination()]: [None] stands for [null].  Each of the two
    scans is an [if] block that returns from inside when its filtered array
    is not empty; the empty list below stands for a block that was skipped
    or found nothing, after which control falls through to the next one. *)
Definition _getNextDestination (e : t) : option Z :=
  let floorsArray := allFloors e in
  if bool_decide (length floorsArray = 0%nat) then None
  else
    let upFloors := filter (fun f => f > currentFloor e) floorsArray in
    let downFloors := filter (fun f => f < currentFloor e) floorsArray in
    match (if bool_decide (direction e = UP ∨ direction e = IDLE)
           then upFloors else []) with
    | f :: fs => Some (Math_min f fs)
    | [] =>
        match (if bool_decide (direction e = DOWN ∨ direction e = IDLE)
               then downFloors else []) with
        | f :: fs => Some (Math_max f fs)
        | [] =>
            if bool_decide (direction e ≠ IDLE) then
              match floorsArray with
              | f :: fs => Some (foldl (closer e) f fs)
              | [] => None
              end
            else None
        end
    end.

(** [_updateDirection(destination)] *)
Definition _updateDirection (destination : Z) (e : t) : t :=
  if bool_decide (destination > currentFloor e) then set_direction UP e
  else if bool_decide (destination < currentFloor e) then set_direction DOWN e
  else set_direction IDLE e.

(** [_removeCompletedRequests(floor)] *)
Definition _removeCompletedRequests (floor : Z) (e : t) : t :=
  let e := set_floorRequests (splice_first floor (floorRequests e)) e in
  set_hallRequests
    (filter (fun req =>
               ¬ (FloorRequest.floor req = floor
                  ∧ (FloorRequest.direction req = direction e
                     ∨ direction e = IDLE)))
            (hallRequests e)) e.

(** [_wait(duration)]: time passes, the object is untouched. *)
Definition _wait (duration : Z) (e : t) : t := e.

(** [_openDoors()] *)
Definition _openDoors (e : t) : t :=
  let e := set_doorState OPENING e in
  let e := _wait (doorOperationTime e) e in
  set_doorState OPEN e.

(** [_closeDoors()] *)
Definition _closeDoors (e : t) : t :=
  let e := set_doorState CLOSING e in
  let e := _wait (doorOperationTime e) e in
  set_doorState CLOSED e.

(** [_moveToFloor(targetFloor)] *)
Definition _moveToFloor (targetFloor : Z) (e : t) : t :=
  if bool_decide (targetFloor = currentFloor e) then e
  else
    let e := _updateDirection targetFloor e in
    let floorsToTravel := Z.abs (targetFloor - currentFloor e) in
    let travelTime := floorsToTravel * floorTravelTime e in
    let e := set_isMoving true e in
    let e := _wait travelTime e in
    let e := set_currentFloor targetFloor e in
    set_isMoving false e.

(** [runCycle()]: the returned boolean is the cycle's "work done" flag. *)
Definition runCycle (e : t) : bool * t :=
  match _getNextDestination e with
  | None => (false, set_direction IDLE e)
  | Some destination =>
      let e := _moveToFloor destination e in
      let e := _openDoors e in
      let e := _wait (stopTime e) e in
      let e := _removeCompletedRequests destination e in
      let e := _closeDoors e in
      (true, e)
  end.

End Elevator.

(** ** class ElevatorController *)

Module ElevatorController.

Record t := mk {
  elevators : list Elevator.t;
  minFloor : Z;
  maxFloor : Z
}.

(** The loop of the constructor: cars [first], [first + 1], ... *)
Fixpoint makeElevators (numElevators : nat) (first minFloor maxFloor : Z)
  : list Elevator.t :=
  match numElevators with
  | O => []
  | S n => Elevator.new first minFloor maxFloor
           :: makeElevators n (first + 1) minFloor maxFloor
  end.

(** [constructor(numElevators = 2, minFloor = 1, maxFloor = 10)] *)
Definition new (numElevators : nat) (minFloor maxFloor : Z) : t :=
  {| elevators := makeElevators numElevators 1 minFloor maxFloor;
     minFloor := minFloor;
     maxFloor := maxFloor |}.

(** The score the loop of [callElevator] gives one car. *)
Definition score (elevator : Elevator.t) (floor : Z) (direction : Direction) : Z :=
  let score := Z.abs (Elevator.currentFloor elevator - floor) in
  let score :=
    if bool_decide (Elevator.direction elevator = direction)
    then score - 2 else score in
  if Elevator.isMoving elevator
     || bool_decide (0 < length (Elevator.floorRequests elevator))%nat
     || bool_decide (0 < length (Elevator.hallRequests elevator))%nat
  then score + 1 else score.

(** [score < bestScore], where [None] is the initial [Infinity]. *)
Definition belowBest (score : Z) (bestScore : option Z) : bool :=
  match bestScore with
  | None => true
  | Some b => bool_decide (score < b)
  end.

(** The [for (const elevator of this.elevators)] loop.  [bestElevator]
    refers to an object of the array, so it is kept as the index of that
    object; [i] is the index of the head of the cars still to visit. *)
Fixpoint findBest (floor : Z) (direction : Direction) (i : nat)
         (rest : list Elevator.t)
         (bestElevator : option nat) (bestScore : option Z)
  : option nat * option Z :=
  match rest with
  | [] => (bestElevator, bestScore)
  | elevator :: rest' =>
      let score := score elevator floor direction in
      if belowBest score bestScore
      then findBest floor direction (S i) rest' (Some i) (Some score)
      else findBest floor direction (S i) rest' bestElevator bestScore
  end.

(** [callElevator(floor, direction)]: the chosen car is mutated in place,
    which the array sees. *)
Definition callElevator (c : t) (now : Z) (floor : Z) (direction : Direction)
  : bool * t :=
  if bool_decide (floor < minFloor c) || bool_decide (floor > maxFloor c)
  then (false, c)
  else
    match fst (findBest floor direction 0 (elevators c) None None) with
    | Some i =>
        match elevators c !! i with
        | Some bestElevator =>
            let '(result, bestElevator') :=
              Elevator.callElevator bestElevator now floor direction in
            (result, mk (<[i := bestElevator']> (elevators c))
                        (minFloor c) (maxFloor c))
        | None => (false, c)
        end
    | None => (false, c)
    end.

(** One round of the driving loops of [demoElevatorSystem] and of
    [createInteractiveDemo().run]: [runCycle] on every car, then
    [results.some(result => result)].  The cars share no state, so the
    concurrent cycles are run one after the other. *)
Definition stepAll (c : t) : bool * t :=
  let tasks := map Elevator.runCycle (elevators c) in
  (existsb (fun result => result) (map fst tasks),
   mk (map snd tasks) (minFloor c) (maxFloor c)).

(** The controller after [n] rounds. *)
Fixpoint rounds (n : nat) (c : t) : t :=
  match n with
  | O => c
  | S n' => rounds n' (snd (stepAll c))
  end.

End ElevatorController.

(** ** The scenario of [demoElevatorSystem] *)

Module Demo.

(** The car at index [i] receives a cabin request. *)
Definition requestFloorAt (i : nat) (floor : Z) (c : ElevatorController.t)
  : ElevatorController.t :=
  match ElevatorController.elevators c !! i with
  | Some e =>
      ElevatorController.mk
        (<[i := snd (Elevator.requestFloor e floor)]>
           (ElevatorController.elevators c))
        (ElevatorController.minFloor c) (ElevatorController.maxFloor c)
  | None => c
  end.

Definition controller0 : ElevatorController.t := ElevatorController.new 2 1 10.

(** [controller.callElevator(5, Direction.UP)] *)
Definition controller1 (now : Z) : ElevatorController.t :=
  snd (ElevatorController.callElevator controller0 now 5 UP).

(** [controller.callElevator(8, Direction.DOWN)] *)
Definition controller2 (now : Z) : ElevatorController.t :=
  snd (ElevatorController.callElevator (controller1 now) now 8 DOWN).

(** [elevator1.requestFloor(7); elevator1.requestFloor(3)] *)
Definition controller3 (now : Z) : ElevatorController.t :=
  requestFloorAt 0 3 (requestFloorAt 0 7 (controller2 now)).

(** The destinations a car computes in its next [n] cycles. *)
Fixpoint destinations (n : nat) (e : Elevator.t) : list (option Z) :=
  match n with
  | O => []
  | S n' => Elevator._getNextDestination e
            :: destinations n' (snd (Elevator.runCycle e))
  end.

End Demo.

(** ** Floors on which the code's arithmetic is exact *)

(** A JavaScript number is an IEEE double: it holds every integer of
    magnitude up to [2 ^ 53], and [a - b], [a + 1], [a - 2] are computed
    without rounding when their exact value is such an integer.  For floors
    of magnitude up to [2 ^ 51] every distance [|a - b|] is at most [2 ^ 52]
    and every score at most [2 ^ 52 + 1], so on such floors the distances of
    [Elevator.closer] and the scores of [ElevatorController.score] are the
    numbers the code computes.  Past that range the code rounds and the
    integers of this model do not. *)
Definition exactFloor (f : Z) : Prop := Z.abs f <= 2 ^ 51.

(** ** The eligible set, as the specification words it *)

(** Following the spec (next-stop selection, steps 1 and 2): every pending
    cabin-request floor is eligible, and the floor of a pending hall request
    is eligible when the car is Idle, or the request's direction is the car's,
    or its floor is the current floor, or the car goes Up and the floor is
    above, or the car goes Down and the floor is below. *)
Definition eligible (e : Elevator.t) (f : Z) : Prop :=
  f ∈ Elevator.floorRequests e
  ∨ ∃ req, req ∈ Elevator.hallRequests e
           ∧ FloorRequest.floor req = f
           ∧ (Elevator.direction e = IDLE
              ∨ FloorRequest.direction req = Elevator.direction e
              ∨ FloorRequest.floor req = Elevator.currentFloor e
              ∨ (Elevator.direction e = UP
                 ∧ FloorRequest.floor req > Elevator.currentFloor e)
              ∨ (Elevator.direction e = DOWN
                 ∧ FloorRequest.floor req < Elevator.currentFloor e)).

(** Following the spec (car selection, step 2): the distance between the
    car and the floor, minus 2 if the car's direction is the requested one,
    plus 1 if the car is moving or has any pending request. *)
Definition dispatchScore (car : Elevator.t) (floor : Z) (d : Direction) : Z :=
  Z.abs (Elevator.currentFloor car - floor)
  - (if decide (Elevator.direction car = d) then 2 else 0)
  + (if decide (Elevator.isMoving car = true
                ∨ Elevator.floorRequests car ≠ []
                ∨ Elevator.hallRequests car ≠ [])
     then 1 else 0).

(** What the loop of [ElevatorController.callElevator] knows after the cars
    of [seen]: nothing if there were none, else the index of the first car
    of least score and that score. *)
Definition bestOf (floor : Z) (d : Direction) (seen : list Elevator.t)
           (bestElevator : option nat) (bestScore : option Z) : Prop :=
  match bestElevator, bestScore with
  | None, None => seen = []
  | Some i, Some s =>
      ∃ car, seen !! i = Some car
             ∧ ElevatorController.score car floor d = s
             ∧ (∀ k ek, seen !! k = Some ek →
                        s <= ElevatorController.score ek floor d)
             ∧ (∀ k ek, (k < i)%nat → seen !! k = Some ek →
                        s < ElevatorController.score ek floor d)
  | _, _ => False
  end.

(** The pending floors of a car all lie within its range. *)
Definition pendingValid (e : Elevator.t) : Prop :=
  Forall (fun f => Elevator.minFloor e <= f <= Elevator.maxFloor e)
         (Elevator.floorRequests e)
  ∧ Forall (fun req => Elevator.minFloor e <= FloorRequest.floor req
                       <= Elevator.maxFloor e)
           (Elevator.hallRequests e).

(** The car stands on a floor of its range. *)
Definition inRange (e : Elevator.t) : Prop :=
  Elevator.minFloor e <= Elevator.currentFloor e <= Elevator.maxFloor e.

(** The cars a sequence of calls can produce, every cycle run to its end
    before the next call: a request that arrives while a cycle is suspended
    at an [await] is not among these steps. *)
Inductive reachable : Elevator.t → Prop :=
| reachable_new id lo hi :
    reachable (Elevator.new id lo hi)
| reachable_requestFloor e floor :
    reachable e → reachable (snd (Elevator.requestFloor e floor))
| reachable_callElevator e now floor d :
    reachable e → reachable (snd (Elevator.callElevator e now floor d))
| reachable_runCycle e :
    reachable e → reachable (snd (Elevator.runCycle e)).

(** The car after [n] cycles. *)
Fixpoint cycles (n : nat) (e : Elevator.t) : Elevator.t :=
  match n with
  | O => e
  | S n' => cycles n' (snd (Elevator.runCycle e))
  end.

(** ** Sample cars *)

Module Samples.

(** A car going Up at floor 2 with cabin requests 9 and 4 and hall calls
    at 6 (Up) and 1 (Down). *)
Definition goingUp : Elevator.t :=
  Elevator.mk 1 1 10 2 UP CLOSED [9; 4]
    [FloorRequest.new 6 UP 0; FloorRequest.new 1 DOWN 0] false 8 0
    2000 1500 3000.

(** A car going Up at floor 8 whose pending floors are all behind it:
    cabin requests 3 and 6 and a hall call at 5 (Up). *)
Definition upNothingAhead : Elevator.t :=
  Elevator.mk 1 1 10 8 UP CLOSED [3; 6] [FloorRequest.new 5 UP 0]
    false 8 0 2000 1500 3000.

(** An idle car at floor 1 whose only request is a hall call at floor 1. *)
Definition idleCalledHere : Elevator.t :=
  snd (Elevator.callElevator (Elevator.new 1 1 10) 0 1 UP).

(** A car called Down to floor 5, after the cycle that brought it there. *)
Definition arrivedForDownCall : Elevator.t :=
  snd (Elevator.runCycle
         (snd (Elevator.callElevator (Elevator.new 1 1 10) 0 5 DOWN))).

(** Car 1 of the demo once its three requests are in: hall call 5 (Up),
    cabin requests 7 and 3. *)
Definition demoCar1 : Elevator.t :=
  snd (Elevator.requestFloor
         (snd (Elevator.requestFloor
                 (snd (Elevator.callElevator (Elevator.new 1 1 10) 0 5 UP))
                 7))
         3).

(** Car 2 of the demo after its first cycle: at floor 8, going Up, the
    Down call at floor 8 still pending. *)
Definition demoCar2Arrived (now : Z) : Elevator.t :=
  Elevator.mk 2 1 10 8 UP CLOSED [] [FloorRequest.new 8 DOWN now]
    false 8 0 2000 1500 3000.

End Samples.

(** ** Names and snapshots *)

(** The keys of the [Direction] object that hold a number, in the order
    [Object.keys] lists them.  The fourth key, [getName], holds a function,
    which is never [===] a number. *)
Definition Direction_keys : list (string * Z) :=
  [("UP", 1); ("DOWN", -1); ("IDLE", 0)]%string.

(** [Direction.getName(value)] for a number [value]. *)
Definition Direction_getName (value : Z) : string :=
  match find (fun kv => bool_decide (snd kv = value)) Direction_keys with
  | Some kv => fst kv
  | None => "UNKNOWN"
  end.

(** The object [getStatus] returns. *)
Module Status.

Record t := mk {
  elevatorId : Z;
  currentFloor : Z;
  direction : string;
  doorState : DoorState;
  isMoving : bool;
  floorRequests : list Z;
  hallRequests : list (Z * string);
  currentPassengers : Z;
  capacity : Z
}.

End Status.

(** [Elevator.getStatus()] *)
Definition getStatus (e : Elevator.t) : Status.t :=
  {| Status.elevatorId := Elevator.elevatorId e;
     Status.currentFloor := Elevator.currentFloor e;
     Status.direction := Direction_getName (Direction_value (Elevator.direction e));
     Status.doorState := Elevator.doorState e;
     Status.isMoving := Elevator.isMoving e;
     Status.floorRequests := Elevator.floorRequests e;
     Status.hallRequests :=
       map (fun req => (FloorRequest.floor req,
                        Direction_getName
                          (Direction_value (FloorRequest.direction req))))
           (Elevator.hallRequests e);
     Status.currentPassengers := Elevator.currentPassengers e;
     Status.capacity := Elevator.capacity e |}.

(** [ElevatorController.getSystemStatus()] *)
Definition getSystemStatus (c : ElevatorController.t) : list Status.t :=
  map getStatus (ElevatorController.elevators c).

(** ** The asynchronous methods, with their suspension points *)

Module Async.

(** An [async] method run on a car: the cars that other code can observe
    while the method is suspended, in order, then the method's result and the
    car it leaves. *)
Definition M (A : Type) : Type :=
  Elevator.t → list Elevator.t * (A * Elevator.t).

Definition ret {A : Type} (a : A) : M A := fun e => ([], (a, e)).

Definition bind {A B : Type} (m : M A) (k : A → M B) : M B :=
  fun e =>
    let '(seen1, (a, e1)) := m e in
    let '(seen2, r) := k a e1 in
    (seen1 ++ seen2, r).

(** Reading [this]. *)
Definition this : M Elevator.t := fun e => ([], (e, e)).

(** An assignment to a field of [this]. *)
Definition assign (f : Elevator.t → Elevator.t) : M unit :=
  fun e => ([], (tt, f e)).

(** The caller stops here and other code runs on the car as it is now. *)
Definition suspend : M unit := fun e => ([e], (tt, e)).

(** [await m]: the call [m] runs, suspended wherever it awaits itself, and
    the caller is suspended until the promise of [m] settles. *)
Definition await {A : Type} (m : M A) : M A :=
  bind m (fun a => bind suspend (fun _ => ret a)).

Notation "'let*' x := m 'in' k" := (bind m (fun x => k))
  (at level 10, x name, m at level 100, k at level 200).
Notation "m ;; k" := (bind m (fun _ => k))
  (at level 100, k at level 200, right associativity).

(** [_wait(duration)]: returns the promise of a timer and awaits nothing
    itself. *)
Definition _wait (duration : Z) : M unit := ret tt.

(** [_openDoors()] *)
Definition _openDoors : M unit :=
  assign (Elevator.set_doorState OPENING) ;;
  let* e := this in
  await (_wait (Elevator.doorOperationTime e)) ;;
  assign (Elevator.set_doorState OPEN).

(** [_closeDoors()] *)
Definition _closeDoors : M unit :=
  assign (Elevator.set_doorState CLOSING) ;;
  let* e := this in
  await (_wait (Elevator.doorOperationTime e)) ;;
  assign (Elevator.set_doorState CLOSED).

(** [_moveToFloor(targetFloor)] *)
Definition _moveToFloor (targetFloor : Z) : M unit :=
  let* e := this in
  if bool_decide (targetFloor = Elevator.currentFloor e) then ret tt
  else
    assign (Elevator._updateDirection targetFloor) ;;
    let* e := this in
    let floorsToTravel := Z.abs (targetFloor - Elevator.currentFloor e) in
    let travelTime := floorsToTravel * Elevator.floorTravelTime e in
    assign (Elevator.set_isMoving true) ;;
    await (_wait travelTime) ;;
    assign (Elevator.set_currentFloor targetFloor) ;;
    assign (Elevator.set_isMoving false).

(** [runCycle()] *)
Definition runCycle : M bool :=
  let* e := this in
  match Elevator._getNextDestination e with
  | None =>
      assign (Elevator.set_direction IDLE) ;;
      ret false
  | Some destination =>
      await (_moveToFloor destination) ;;
      await _openDoors ;;
      let* e := this in
      await (_wait (Elevator.stopTime e)) ;;
      assign (Elevator._removeCompletedRequests destination) ;;
      await _closeDoors ;;
      ret true
  end.

(** What other code can see of a car: is it moving, and its doors. *)
Definition seen (e : Elevator.t) : bool * DoorState :=
  (Elevator.isMoving e, Elevator.doorState e).

End Async.

(** ** The object of [createInteractiveDemo] *)

Module Interactive.

(** [call(floor, direction = 'UP')]: any label but ['UP'] is a Down call;
    the controller's answer is dropped. *)
Definition call (c : ElevatorController.t) (now floor : Z) (direction : string)
  : ElevatorController.t :=
  let dir := if decide (direction = "UP"%string) then UP else DOWN in
  snd (ElevatorController.callElevator c now floor dir).

(** [request(elevatorId, floor)]: [controller.elevators[elevatorId - 1]] is
    [undefined] for an index that is negative or past the end, and then
    nothing happens. *)
Definition request (c : ElevatorController.t) (elevatorId floor : Z)
  : ElevatorController.t :=
  if bool_decide (elevatorId - 1 < 0) then c
  else
    match ElevatorController.elevators c !! Z.to_nat (elevatorId - 1) with
    | Some elevator =>
        ElevatorController.mk
          (<[Z.to_nat (elevatorId - 1) := snd (Elevator.requestFloor elevator floor)]>
             (ElevatorController.elevators c))
          (ElevatorController.minFloor c) (ElevatorController.maxFloor c)
    | None => c
    end.

(** [run(cycles = 5)]: at most [cycles] rounds, left at the first round in
    which no car reports work (that round has run all the same). *)
Fixpoint run (cycles : nat) (c : ElevatorController.t) : ElevatorController.t :=
  match cycles with
  | O => c
  | S cycles' =>
      let results := ElevatorController.stepAll c in
      if fst results then run cycles' (snd results) else snd results
  end.

End Interactive.

(** ** Pending floors *)

(** The floors of all pending requests of a car, cabin and hall. *)
Definition pendingFloors (e : Elevator.t) : list Z :=
  Elevator.floorRequests e ++ map FloorRequest.floor (Elevator.hallRequests e).

(** The (floor, direction) pairs of the pending hall requests. *)
Definition hallKeys (e : Elevator.t) : list (Z * Direction) :=
  map (fun req => (FloorRequest.floor req, FloorRequest.direction req))
      (Elevator.hallRequests e).

(** ** More sample cars *)

Module MoreSamples.

(** A car that answered a call at floor 5 going Up and was then called Down
    to floor 3, behind it. *)
Definition calledBehind : Elevator.t :=
  snd (Elevator.callElevator
         (snd (Elevator.runCycle
                 (snd (Elevator.callElevator (Elevator.new 1 1 10) 0 5 UP))))
         0 3 DOWN).

(** A car going Down at floor 6 with cabin requests 2 and 9 and a hall
    call at 4 (Down). *)
Definition goingDown : Elevator.t :=
  Elevator.mk 1 1 10 6 DOWN CLOSED [2; 9] [FloorRequest.new 4 DOWN 0]
    false 8 0 2000 1500 3000.

End MoreSamples.

(** * Properties *)

(** ** Built-ins *)

Section Builtins.

Lemma elem_of_Set_add (x y : Z) (s : list Z) :
  y ∈ Set_add x s ↔ y = x ∨ y ∈ s.
Proof.
  unfold Set_add. case_decide.
  - split; [auto | intros [-> | ?]; done].
  - rewrite elem_of_app, list_elem_of_singleton. tauto.
Qed.

Lemma NoDup_Set_add (x : Z) (s : list Z) : NoDup s → NoDup (Set_add x s).
Proof.
  intros Hs. unfold Set_add. case_decide; [done |].
  apply NoDup_app. split_and!; [done | | apply NoDup_singleton].
  intros y Hy ->%list_elem_of_singleton. done.
Qed.

Lemma elem_of_Set_of_from (l s : list Z) (y : Z) :
  y ∈ foldl (fun s x => Set_add x s) s l ↔ y ∈ s ∨ y ∈ l.
Proof.
  revert s. induction l as [| x l IH]; intros s; simpl.
  - rewrite elem_of_nil. tauto.
  - rewrite IH, elem_of_Set_add, elem_of_cons. tauto.
Qed.

Lemma elem_of_Set_of (l : list Z) (y : Z) : y ∈ Set_of l ↔ y ∈ l.
Proof.
  unfold Set_of. rewrite elem_of_Set_of_from, elem_of_nil. tauto.
Qed.

Lemma Math_min_spec (xs : list Z) (x : Z) :
  Math_min x xs ∈ x :: xs ∧ ∀ y, y ∈ x :: xs → Math_min x xs <= y.
Proof.
  unfold Math_min. revert x.
  induction xs as [| z xs IH]; intros x; simpl.
  - split; [apply list_elem_of_here |].
    intros y ->%list_elem_of_singleton. lia.
  - destruct (IH (Z.min x z)) as [Hin Hle]. split.
    + apply elem_of_cons in Hin as [Heq | Hin].
      * rewrite Heq. destruct (Z.min_spec x z) as [[_ ->] | [_ ->]];
          rewrite !elem_of_cons; auto.
      * rewrite !elem_of_cons. auto.
    + intros y Hy. rewrite !elem_of_cons in Hy.
      destruct Hy as [-> | [-> | Hy]].
      * specialize (Hle (Z.min x z) (list_elem_of_here _ _)). lia.
      * specialize (Hle (Z.min x z) (list_elem_of_here _ _)). lia.
      * apply Hle. by apply list_elem_of_further.
Qed.

Lemma Math_max_spec (xs : list Z) (x : Z) :
  Math_max x xs ∈ x :: xs ∧ ∀ y, y ∈ x :: xs → y <= Math_max x xs.
Proof.
  unfold Math_max. revert x.
  induction xs as [| z xs IH]; intros x; simpl.
  - split; [apply list_elem_of_here |].
    intros y ->%list_elem_of_singleton. lia.
  - destruct (IH (Z.max x z)) as [Hin Hle]. split.
    + apply elem_of_cons in Hin as [Heq | Hin].
      * rewrite Heq. destruct (Z.max_spec x z) as [[_ ->] | [_ ->]];
          rewrite !elem_of_cons; auto.
      * rewrite !elem_of_cons. auto.
    + intros y Hy. rewrite !elem_of_cons in Hy.
      destruct Hy as [-> | [-> | Hy]].
      * specialize (Hle (Z.max x z) (list_elem_of_here _ _)). lia.
      * specialize (Hle (Z.max x z) (list_elem_of_here _ _)). lia.
      * apply Hle. by apply list_elem_of_further.
Qed.

Lemma splice_first_not_elem (x : Z) (l : list Z) :
  NoDup l → x ∉ splice_first x l.
Proof.
  induction 1 as [| y l Hy Hl IH]; simpl; [apply not_elem_of_nil |].
  case_decide as Hxy.
  - by subst.
  - rewrite not_elem_of_cons. split; [congruence | done].
Qed.

Lemma splice_first_others (x : Z) (l : list Z) :
  filter (fun g => g ≠ x) (splice_first x l) = filter (fun g => g ≠ x) l.
Proof.
  induction l as [| y l IH]; simpl; [done |].
  case_decide as Hxy.
  - subst. by rewrite filter_cons_False by tauto.
  - rewrite !filter_cons_True by done. by rewrite IH.
Qed.

Lemma splice_first_subseteq (x : Z) (l : list Z) : splice_first x l ⊆ l.
Proof.
  induction l as [| y l IH]; simpl; [done |].
  case_decide.
  - intros z Hz. by apply list_elem_of_further.
  - intros z [-> | Hz]%elem_of_cons; [apply list_elem_of_here |].
    apply list_elem_of_further. by apply IH.
Qed.

Lemma NoDup_splice_first (x : Z) (l : list Z) :
  NoDup l → NoDup (splice_first x l).
Proof.
  induction 1 as [| y l Hy Hl IH]; simpl; [constructor |].
  case_decide; [done |].
  apply NoDup_cons. split; [| done].
  intros Hin. apply Hy. by apply (splice_first_subseteq x).
Qed.

Lemma sort_asc_Permutation (l : list Z) : sort_asc l ≡ₚ l.
Proof. apply merge_sort_Permutation. Qed.

End Builtins.

(** ** Next-stop selection *)

Section NextStop.

Variable e : Elevator.t.

Lemma hallContributes_spec (req : FloorRequest.t) :
  Elevator.hallContributes e req = true
  ↔ (Elevator.direction e = IDLE
     ∨ FloorRequest.direction req = Elevator.direction e
     ∨ FloorRequest.floor req = Elevator.currentFloor e
     ∨ (Elevator.direction e = UP
        ∧ FloorRequest.floor req > Elevator.currentFloor e)
     ∨ (Elevator.direction e = DOWN
        ∧ FloorRequest.floor req < Elevator.currentFloor e)).
Proof.
  unfold Elevator.hallContributes.
  rewrite !orb_true_iff, !andb_true_iff, !bool_decide_eq_true. tauto.
Qed.

Lemma elem_of_hall_loop (l : list FloorRequest.t) (s : list Z) (y : Z) :
  y ∈ foldl (fun s request =>
               if Elevator.hallContributes e request
               then Set_add (FloorRequest.floor request) s else s) s l
  ↔ y ∈ s ∨ ∃ req, req ∈ l ∧ FloorRequest.floor req = y
                   ∧ Elevator.hallContributes e req = true.
Proof.
  revert s. induction l as [| r l IH]; intros s; simpl.
  - split; [auto | intros [? | (req & []%elem_of_nil & _)]; done].
  - rewrite IH. destruct (Elevator.hallContributes e r) eqn:Hr.
    + rewrite elem_of_Set_add. split.
      * intros [[-> | ?] | (req & ? & ? & ?)]; [right | by left | right].
        -- exists r. split_and!; [apply list_elem_of_here | done | done].
        -- exists req. split_and!; [by apply list_elem_of_further | done | done].
      * intros [? | (req & [-> | ?]%elem_of_cons & ? & ?)]; [auto | auto |].
        right. by exists req.
    + split.
      * intros [? | (req & ? & ? & ?)]; [by left | right].
        exists req. split_and!; [by apply list_elem_of_further | done | done].
      * intros [? | (req & [-> | ?]%elem_of_cons & ? & ?)];
          [auto | congruence |].
        right. by exists req.
Qed.

(** The set the code builds holds exactly the eligible floors. *)
Lemma allFloors_eligible (f : Z) : f ∈ Elevator.allFloors e ↔ eligible e f.
Proof.
  unfold Elevator.allFloors, eligible.
  rewrite elem_of_hall_loop, elem_of_Set_of.
  split; (intros [? | (req & ? & ? & Hc)]; [by left | right]);
    exists req; split_and!; try done; by apply hallContributes_spec.
Qed.

Lemma NoDup_hall_loop (l : list FloorRequest.t) (s : list Z) :
  NoDup s →
  NoDup (foldl (fun s request =>
                  if Elevator.hallContributes e request
                  then Set_add (FloorRequest.floor request) s else s) s l).
Proof.
  revert s. induction l as [| r l IH]; intros s Hs; simpl; [done |].
  apply IH. destruct (Elevator.hallContributes e r); [| done].
  by apply NoDup_Set_add.
Qed.

Lemma NoDup_Set_of_from (l s : list Z) :
NoDup s → NoDup (foldl (fun s x => Set_add x s) s l).
Proof.
  revert s. induction l as [| x l IH]; intros s Hs; simpl; [done |].
  by apply IH, NoDup_Set_add.
Qed.

(** The array made from the set holds no floor twice. *)
Lemma NoDup_allFloors : NoDup (Elevator.allFloors e).
Proof.
  unfold Elevator.allFloors. apply NoDup_hall_loop.
  unfold Set_of. apply NoDup_Set_of_from. constructor.
Qed.

Lemma closest_spec (fs : list Z) (f : Z) :
  foldl (Elevator.closer e) f fs ∈ f :: fs
  ∧ ∀ y, y ∈ f :: fs →
         Z.abs (foldl (Elevator.closer e) f fs - Elevator.currentFloor e)
         <= Z.abs (y - Elevator.currentFloor e).
Proof.
  revert f. induction fs as [| g fs IH]; intros f; simpl.
  - split; [apply list_elem_of_here |].
    intros y ->%list_elem_of_singleton. lia.
  - destruct (IH (Elevator.closer e f g)) as [Hin Hle].
    assert (Hc : (Elevator.closer e f g = f ∨ Elevator.closer e f g = g)
                 ∧ Z.abs (Elevator.closer e f g - Elevator.currentFloor e)
                   <= Z.abs (f - Elevator.currentFloor e)
                 ∧ Z.abs (Elevator.closer e f g - Elevator.currentFloor e)
                   <= Z.abs (g - Elevator.currentFloor e)).
    { unfold Elevator.closer. case_bool_decide; split_and!; auto; lia. }
    destruct Hc as (Hsel & Hf & Hg). split.
    + apply elem_of_cons in Hin as [Heq | Hin].
      * rewrite Heq, !elem_of_cons. destruct Hsel as [-> | ->]; auto.
      * rewrite !elem_of_cons. auto.
    + pose proof (Hle _ (list_elem_of_here _ _)) as Hhd.
      intros y Hy. rewrite !elem_of_cons in Hy.
      destruct Hy as [-> | [-> | Hy]]; [lia | lia |].
      apply Hle. by apply list_elem_of_further.
Qed.

Lemma filter_empty_nil (P : Z → Prop) `{!∀ x, Decision (P x)} (l : list Z) :
  (∀ x, x ∈ l → ¬ P x) → filter P l = [].
Proof.
  intros Hall. destruct (filter P l) as [| g gs] eqn:Hf; [done |].
  assert (Hg : g ∈ filter P l) by (rewrite Hf; apply list_elem_of_here).
  apply list_elem_of_filter in Hg as [HP Hin]. by destruct (Hall g Hin).
Qed.

Lemma allFloors_nonempty (f : Z) :
  eligible e f → bool_decide (length (Elevator.allFloors e) = 0%nat) = false.
Proof.
  intros Hf%allFloors_eligible. apply bool_decide_eq_false.
  destruct (Elevator.allFloors e); [by apply elem_of_nil in Hf | done].
Qed.

End NextStop.

(** C3: a car going Up or Idle with an eligible floor strictly above its
    current floor is sent to the least such floor. *)
Theorem nextStop_up_is_minimum_above (e : Elevator.t) :
  Elevator.direction e = UP ∨ Elevator.direction e = IDLE →
  (∃ f, eligible e f ∧ f > Elevator.currentFloor e) →
  ∃ m, Elevator._getNextDestination e = Some m
       ∧ eligible e m
       ∧ m > Elevator.currentFloor e
       ∧ ∀ f, eligible e f → f > Elevator.currentFloor e → m <= f.
Proof.
  intros Hdir (f & Hf & Hgt).
  unfold Elevator._getNextDestination.
  rewrite (allFloors_nonempty e f Hf).
  rewrite (bool_decide_eq_true_2 _ Hdir).
  destruct (filter (fun g => g > Elevator.currentFloor e) (Elevator.allFloors e))
    as [| g gs] eqn:Hup.
  - exfalso. eapply (filter_nil_not_elem_of _ _ f Hup Hgt).
    by apply allFloors_eligible.
  - destruct (Math_min_spec gs g) as [Hin Hmin].
    exists (Math_min g gs). split; [done |].
    rewrite <- Hup in Hin, Hmin.
    apply list_elem_of_filter in Hin as [Hm1 Hm2].
    split_and!; [by apply allFloors_eligible | done |].
    intros f' Hf' Hgt'. apply Hmin, list_elem_of_filter.
    split; [done | by apply allFloors_eligible].
Qed.

Lemma nextStop_up_is_minimum_above_witness :
  ∃ m, Elevator._getNextDestination Samples.goingUp = Some m
       ∧ eligible Samples.goingUp m
       ∧ m > Elevator.currentFloor Samples.goingUp
       ∧ ∀ f, eligible Samples.goingUp f →
              f > Elevator.currentFloor Samples.goingUp → m <= f.
Proof.
  apply (nextStop_up_is_minimum_above Samples.goingUp).
  - left. reflexivity.
  - exists 9. split; [| simpl; lia]. left. apply list_elem_of_here.
Defined.

(** C4: a car going Up with no eligible floor above it, or going Down with
    no eligible floor below it, is sent to an eligible floor at the least
    distance from its current floor; of two eligible floors at that distance
    it is sent to the lower.  The floors are taken in the range where the
    distances the code computes are exact ([exactFloor]). *)
Theorem nextStop_fallback_is_closest (e : Elevator.t) :
  exactFloor (Elevator.currentFloor e) →
  (∀ f, eligible e f → exactFloor f) →
  (Elevator.direction e = UP
   ∧ ∀ f, eligible e f → ¬ f > Elevator.currentFloor e)
  ∨ (Elevator.direction e = DOWN
     ∧ ∀ f, eligible e f → ¬ f < Elevator.currentFloor e) →
  (∃ f, eligible e f) →
  ∃ m, Elevator._getNextDestination e = Some m
       ∧ eligible e m
       ∧ (∀ f, eligible e f →
               Z.abs (m - Elevator.currentFloor e)
               <= Z.abs (f - Elevator.currentFloor e))
       ∧ (∀ f, eligible e f →
               Z.abs (f - Elevator.currentFloor e)
               = Z.abs (m - Elevator.currentFloor e) → m <= f).
Proof.
  intros _ _ Hside (f0 & Hf0).
  unfold Elevator._getNextDestination.
  rewrite (allFloors_nonempty e f0 Hf0).
  assert (Hfall : ∃ m, (if bool_decide (Elevator.direction e ≠ IDLE)
                        then match Elevator.allFloors e with
                             | f :: fs => Some (foldl (Elevator.closer e) f fs)
                             | [] => None
                             end
                        else None) = Some m
                       ∧ eligible e m
                       ∧ ∀ f, eligible e f →
                              Z.abs (m - Elevator.currentFloor e)
                              <= Z.abs (f - Elevator.currentFloor e)).
  { rewrite bool_decide_eq_true_2 by (destruct Hside as [[-> _] | [-> _]]; done).
    destruct (Elevator.allFloors e) as [| g gs] eqn:Hall.
    - apply allFloors_eligible in Hf0. rewrite Hall in Hf0.
      by apply elem_of_nil in Hf0.
    - destruct (closest_spec e gs g) as [Hin Hle]. rewrite <- Hall in Hin, Hle.
      eexists. split_and!; [done | by apply allFloors_eligible |].
      intros f Hf. by apply Hle, allFloors_eligible. }
  destruct Hfall as (m & Hm & Helig & Hclosest).
  exists m.
  destruct Hside as [[Hdir Hnone] | [Hdir Hnone]]; rewrite Hdir in *.
  - rewrite (bool_decide_eq_true_2 (UP = UP ∨ UP = IDLE)) by auto.
    rewrite filter_empty_nil
      by (intros x Hx; by apply Hnone, allFloors_eligible).
    rewrite (bool_decide_eq_false_2 (UP = DOWN ∨ UP = IDLE)) by (intros [|]; done).
    split_and!; [done | done | done |].
    intros f Hf Heq. pose proof (Hnone f Hf). pose proof (Hnone m Helig).
    lia.
  - rewrite (bool_decide_eq_false_2 (DOWN = UP ∨ DOWN = IDLE))
      by (intros [|]; done).
    rewrite (bool_decide_eq_true_2 (DOWN = DOWN ∨ DOWN = IDLE)) by auto.
    rewrite filter_empty_nil
      by (intros x Hx; by apply Hnone, allFloors_eligible).
    split_and!; [done | done | done |].
    intros f Hf Heq. pose proof (Hnone f Hf). pose proof (Hnone m Helig).
    lia.
Qed.

Lemma nextStop_fallback_is_closest_witness :
  ∃ m, Elevator._getNextDestination Samples.upNothingAhead = Some m
       ∧ eligible Samples.upNothingAhead m
       ∧ (∀ f, eligible Samples.upNothingAhead f →
               Z.abs (m - Elevator.currentFloor Samples.upNothingAhead)
               <= Z.abs (f - Elevator.currentFloor Samples.upNothingAhead))
       ∧ (∀ f, eligible Samples.upNothingAhead f →
               Z.abs (f - Elevator.currentFloor Samples.upNothingAhead)
               = Z.abs (m - Elevator.currentFloor Samples.upNothingAhead) →
               m <= f).
Proof.
  apply (nextStop_fallback_is_closest Samples.upNothingAhead).
  - unfold exactFloor. simpl. lia.
  - intros f Hf%allFloors_eligible.
    change (f ∈ [3; 6; 5]) in Hf. unfold exactFloor.
    repeat (apply elem_of_cons in Hf as [-> | Hf]); try lia.
    by apply elem_of_nil in Hf.
  - left. split; [reflexivity |].
    intros f Hf%allFloors_eligible.
    change (f ∈ [3; 6; 5]) in Hf. simpl.
    repeat (apply elem_of_cons in Hf as [-> | Hf]); try lia.
    by apply elem_of_nil in Hf.
  - exists 3. left. apply list_elem_of_here.
Defined.

Example nextStop_fallback_sample :
  Elevator._getNextDestination Samples.upNothingAhead = Some 6.
Proof. reflexivity. Qed.

(** ** Rejected requests *)

(** C7: a request for a floor outside the car's range is refused and leaves
    the car as it was, from the cabin and from the hall in any direction;
    so are a hall call Up at the top floor and one Down at the bottom
    floor. *)
Theorem out_of_range_requests_rejected (e : Elevator.t) (now : Z) :
  (∀ f d, f < Elevator.minFloor e ∨ f > Elevator.maxFloor e →
          Elevator.requestFloor e f = (false, e)
          ∧ Elevator.callElevator e now f d = (false, e))
  ∧ Elevator.callElevator e now (Elevator.maxFloor e) UP = (false, e)
  ∧ Elevator.callElevator e now (Elevator.minFloor e) DOWN = (false, e).
Proof.
  split_and!.
  - intros f d Hout.
    assert (Hv : Elevator._isValidFloor e f = false).
    { unfold Elevator._isValidFloor. apply andb_false_iff.
      rewrite !bool_decide_eq_false. lia. }
    unfold Elevator.requestFloor, Elevator.callElevator. by rewrite Hv.
  - unfold Elevator.callElevator.
    destruct (Elevator._isValidFloor e (Elevator.maxFloor e));
      cbn [negb]; [| done].
    rewrite (bool_decide_eq_true_2 (Elevator.maxFloor e = Elevator.maxFloor e))
      by done.
    done.
  - unfold Elevator.callElevator.
    destruct (Elevator._isValidFloor e (Elevator.minFloor e));
      cbn [negb]; [| done].
    rewrite (bool_decide_eq_true_2 (Elevator.minFloor e = Elevator.minFloor e))
      by done.
    simpl. by rewrite orb_true_r.
Qed.

Lemma out_of_range_requests_rejected_witness :
  Elevator.requestFloor Samples.goingUp 11 = (false, Samples.goingUp)
  ∧ Elevator.callElevator Samples.goingUp 0 11 DOWN = (false, Samples.goingUp).
Proof.
  destruct (out_of_range_requests_rejected Samples.goingUp 0) as [Hout _].
  apply (Hout 11 DOWN). right. simpl. lia.
Defined.

(** ** Cycles *)

Section Cycle.

Variable e : Elevator.t.

Lemma set_direction_same : Elevator.set_direction (Elevator.direction e) e = e.
Proof. by destruct e. Qed.

(** A target other than the current floor sets the direction towards it. *)
Lemma moveToFloor_direction (d : Z) :
  d ≠ Elevator.currentFloor e →
  Elevator.direction (Elevator._moveToFloor d e)
  = if bool_decide (d > Elevator.currentFloor e) then UP else DOWN.
Proof.
  intros Hne. unfold Elevator._moveToFloor, Elevator._updateDirection.
  rewrite bool_decide_eq_false_2 by done.
  repeat case_bool_decide; simpl; try done; lia.
Qed.

(** The current floor as target: [_moveToFloor] returns at once. *)
Lemma moveToFloor_same : Elevator._moveToFloor (Elevator.currentFloor e) e = e.
Proof. unfold Elevator._moveToFloor. by rewrite bool_decide_eq_true_2. Qed.

Lemma moveToFloor_requests (d : Z) :
  Elevator.floorRequests (Elevator._moveToFloor d e) = Elevator.floorRequests e
  ∧ Elevator.hallRequests (Elevator._moveToFloor d e) = Elevator.hallRequests e
  ∧ Elevator.minFloor (Elevator._moveToFloor d e) = Elevator.minFloor e
  ∧ Elevator.maxFloor (Elevator._moveToFloor d e) = Elevator.maxFloor e
  ∧ Elevator.currentFloor (Elevator._moveToFloor d e) = d.
Proof.
  unfold Elevator._moveToFloor, Elevator._updateDirection.
  repeat case_bool_decide; simpl; done.
Qed.

(** What a cycle with a destination leaves behind. *)
Lemma runCycle_served (f : Z) :
  Elevator._getNextDestination e = Some f →
  let arrived := Elevator._moveToFloor f e in
  let e' := snd (Elevator.runCycle e) in
  fst (Elevator.runCycle e) = true
  ∧ Elevator.direction e' = Elevator.direction arrived
  ∧ Elevator.currentFloor e' = f
  ∧ Elevator.minFloor e' = Elevator.minFloor e
  ∧ Elevator.maxFloor e' = Elevator.maxFloor e
  ∧ Elevator.floorRequests e' = splice_first f (Elevator.floorRequests e)
  ∧ Elevator.hallRequests e'
    = filter (fun req =>
                ¬ (FloorRequest.floor req = f
                   ∧ (FloorRequest.direction req = Elevator.direction arrived
                      ∨ Elevator.direction arrived = IDLE)))
             (Elevator.hallRequests e).
Proof.
  intros Hd. unfold Elevator.runCycle. rewrite Hd. simpl.
  destruct (moveToFloor_requests f) as (-> & -> & -> & -> & ->). done.
Qed.

End Cycle.

(** C10: an idle car whose eligible floors all equal its current floor has
    no next stop; its cycle reports no work and changes nothing, so after any
    number of cycles its hall requests are the ones it started with. *)
Theorem idle_request_at_own_floor_never_served (e : Elevator.t) :
  Elevator.direction e = IDLE →
  (∀ f, eligible e f → f = Elevator.currentFloor e) →
  Elevator._getNextDestination e = None
  ∧ Elevator.runCycle e = (false, e)
  ∧ ∀ n, fst (Elevator.runCycle (cycles n e)) = false
         ∧ Elevator.hallRequests (cycles n e) = Elevator.hallRequests e.
Proof.
  intros Hdir Hhere.
  assert (Hnone : Elevator._getNextDestination e = None).
  { unfold Elevator._getNextDestination. case_bool_decide; [done |].
    rewrite Hdir.
    rewrite (bool_decide_eq_true_2 (IDLE = UP ∨ IDLE = IDLE)) by auto.
    rewrite (bool_decide_eq_true_2 (IDLE = DOWN ∨ IDLE = IDLE)) by auto.
    rewrite !filter_empty_nil
      by (intros x Hx%allFloors_eligible%Hhere; lia).
    by rewrite bool_decide_eq_false_2 by auto. }
  assert (Hrun : Elevator.runCycle e = (false, e)).
  { unfold Elevator.runCycle. rewrite Hnone, <- Hdir.
    by rewrite set_direction_same. }
  split_and!; [done | done |].
  assert (Hfix : ∀ n, cycles n e = e).
  { induction n as [| n IH]; simpl; [done |]. by rewrite Hrun. }
  intros n. rewrite Hfix, Hrun. done.
Qed.

Lemma idle_request_at_own_floor_never_served_witness :
  Elevator._getNextDestination Samples.idleCalledHere = None
  ∧ Elevator.runCycle Samples.idleCalledHere = (false, Samples.idleCalledHere)
  ∧ ∀ n, fst (Elevator.runCycle (cycles n Samples.idleCalledHere)) = false
         ∧ Elevator.hallRequests (cycles n Samples.idleCalledHere)
           = Elevator.hallRequests Samples.idleCalledHere.
Proof.
  apply (idle_request_at_own_floor_never_served Samples.idleCalledHere).
  - reflexivity.
  - intros f Hf%allFloors_eligible.
    change (f ∈ [1]) in Hf. by apply list_elem_of_singleton in Hf.
Defined.

Example idleCalledHere_pending :
  Elevator.hallRequests Samples.idleCalledHere = [FloorRequest.new 1 UP 0].
Proof. reflexivity. Qed.

(** ** Retiring requests *)

(** The cabin requests of a reachable car hold no floor twice. *)
Lemma reachable_NoDup (e : Elevator.t) :
  reachable e → NoDup (Elevator.floorRequests e).
Proof.
  induction 1 as [id lo hi | e floor _ IH | e now floor d _ IH | e _ IH].
  - constructor.
  - unfold Elevator.requestFloor.
    repeat (case_match; simpl; try done).
    rewrite sort_asc_Permutation. apply NoDup_app.
    split_and!; [done | | apply NoDup_singleton].
    intros x Hx ->%list_elem_of_singleton.
    match goal with
    | H : negb (bool_decide _) = true |- _ =>
        apply negb_true_iff, bool_decide_eq_false in H; by apply H
    end.
  - unfold Elevator.callElevator. repeat (case_match; simpl; try done).
  - destruct (Elevator._getNextDestination e) as [f |] eqn:Hd.
    + destruct (runCycle_served e f Hd) as (_ & _ & _ & _ & _ & -> & _).
      by apply NoDup_splice_first.
    + unfold Elevator.runCycle. by rewrite Hd.
Qed.

(** C5: after a cycle of a reachable car that served floor [f], [f] is not
    a pending cabin request; no pending hall request at [f] has the direction
    the car arrived with; when that direction is Idle no hall request at [f]
    is pending at all; and the cabin and hall requests for other floors are
    the ones pending before, in the same order. *)
Theorem runCycle_retires_served_floor (e : Elevator.t) (f : Z) :
  reachable e →
  Elevator._getNextDestination e = Some f →
  fst (Elevator.runCycle e) = true
  ∧ Elevator.direction (snd (Elevator.runCycle e))
    = Elevator.direction (Elevator._moveToFloor f e)
  ∧ (f ∉ Elevator.floorRequests (snd (Elevator.runCycle e)))
  ∧ (∀ req, req ∈ Elevator.hallRequests (snd (Elevator.runCycle e)) →
            FloorRequest.floor req = f →
            FloorRequest.direction req
            ≠ Elevator.direction (Elevator._moveToFloor f e))
  ∧ (Elevator.direction (Elevator._moveToFloor f e) = IDLE →
     ∀ req, req ∈ Elevator.hallRequests (snd (Elevator.runCycle e)) →
            FloorRequest.floor req ≠ f)
  ∧ filter (fun g => g ≠ f) (Elevator.floorRequests (snd (Elevator.runCycle e)))
    = filter (fun g => g ≠ f) (Elevator.floorRequests e)
  ∧ filter (fun req => FloorRequest.floor req ≠ f)
           (Elevator.hallRequests (snd (Elevator.runCycle e)))
    = filter (fun req => FloorRequest.floor req ≠ f) (Elevator.hallRequests e).
Proof.
  intros Hreach Hd.
  destruct (runCycle_served e f Hd) as (Hwork & Hdir & _ & _ & _ & Hcab & Hhall).
  rewrite Hcab, Hhall.
  split_and!; [done | done | | | | |].
  - by apply splice_first_not_elem, reachable_NoDup.
  - intros req [Hkeep _]%list_elem_of_filter Hfloor Hsame. apply Hkeep. auto.
  - intros Hidle req [Hkeep _]%list_elem_of_filter Hfloor. apply Hkeep. auto.
  - apply splice_first_others.
  - apply list_filter_filter_l. intros req Hne [Heq _]. done.
Qed.

Lemma runCycle_retires_served_floor_witness :
  fst (Elevator.runCycle Samples.demoCar1) = true
  ∧ Elevator.direction (snd (Elevator.runCycle Samples.demoCar1))
    = Elevator.direction (Elevator._moveToFloor 3 Samples.demoCar1)
  ∧ (3 ∉ Elevator.floorRequests (snd (Elevator.runCycle Samples.demoCar1)))
  ∧ (∀ req,
        req ∈ Elevator.hallRequests (snd (Elevator.runCycle Samples.demoCar1)) →
        FloorRequest.floor req = 3 →
        FloorRequest.direction req
        ≠ Elevator.direction (Elevator._moveToFloor 3 Samples.demoCar1))
  ∧ (Elevator.direction (Elevator._moveToFloor 3 Samples.demoCar1) = IDLE →
     ∀ req,
       req ∈ Elevator.hallRequests (snd (Elevator.runCycle Samples.demoCar1)) →
       FloorRequest.floor req ≠ 3)
  ∧ filter (fun g => g ≠ 3)
           (Elevator.floorRequests (snd (Elevator.runCycle Samples.demoCar1)))
    = filter (fun g => g ≠ 3) (Elevator.floorRequests Samples.demoCar1)
  ∧ filter (fun req => FloorRequest.floor req ≠ 3)
           (Elevator.hallRequests (snd (Elevator.runCycle Samples.demoCar1)))
    = filter (fun req => FloorRequest.floor req ≠ 3)
             (Elevator.hallRequests Samples.demoCar1).
Proof.
  apply (runCycle_retires_served_floor Samples.demoCar1 3).
  - unfold Samples.demoCar1. do 3 constructor. apply reachable_new.
  - reflexivity.
Defined.

(** The retire phase on its own, whatever the direction: an Idle car drops
    every hall request at the floor, a car with a direction only those in
    its direction. *)
Lemma removeCompletedRequests_hall (e : Elevator.t) (f : Z) (req : FloorRequest.t) :
  req ∈ Elevator.hallRequests (Elevator._removeCompletedRequests f e)
  ↔ req ∈ Elevator.hallRequests e
    ∧ ¬ (FloorRequest.floor req = f
         ∧ (FloorRequest.direction req = Elevator.direction e
            ∨ Elevator.direction e = IDLE)).
Proof.
  unfold Elevator._removeCompletedRequests. simpl.
  rewrite list_elem_of_filter. tauto.
Qed.

(** ** Dispatch *)

Section Dispatch.

Variables (floor : Z) (d : Direction).

Lemma score_dispatchScore (car : Elevator.t) :
  ElevatorController.score car floor d = dispatchScore car floor d.
Proof.
  unfold ElevatorController.score, dispatchScore.
  destruct (Elevator.isMoving car), (Elevator.floorRequests car),
    (Elevator.hallRequests car); simpl;
    repeat case_bool_decide; repeat case_decide;
    first [lia | exfalso; intuition (congruence || lia)].
Qed.

Lemma findBest_bestOf (rest seen : list Elevator.t)
      (bestElevator : option nat) (bestScore : option Z) :
  bestOf floor d seen bestElevator bestScore →
  bestOf floor d (seen ++ rest)
         (fst (ElevatorController.findBest floor d (length seen) rest
                 bestElevator bestScore))
         (snd (ElevatorController.findBest floor d (length seen) rest
                 bestElevator bestScore)).
Proof.
  revert seen bestElevator bestScore.
  induction rest as [| car rest IH]; intros seen be bs Hbest; simpl.
  - by rewrite app_nil_r.
  - replace (seen ++ car :: rest) with ((seen ++ [car]) ++ rest)
      by (by rewrite <- app_assoc).
    replace (S (length seen)) with (length (seen ++ [car]))
      by (rewrite length_app; simpl; lia).
    destruct (ElevatorController.belowBest _ bs) eqn:Hbelow; apply IH.
    + (* the car at hand beats the best so far *)
      exists car. split_and!.
      * apply lookup_snoc_Some. auto.
      * done.
      * intros k ek [[_ Hk] | [_ <-]]%lookup_snoc_Some; [| lia].
        destruct be as [i |], bs as [s |]; simpl in Hbest, Hbelow;
          try done.
        -- destruct Hbest as (c & _ & _ & Hle & _).
           apply bool_decide_eq_true in Hbelow.
           specialize (Hle k ek Hk). lia.
        -- subst seen. done.
      * intros k ek Hlt [[_ Hk] | [-> _]]%lookup_snoc_Some; [| lia].
        destruct be as [i |], bs as [s |]; simpl in Hbest, Hbelow;
          try done.
        -- destruct Hbest as (c & _ & _ & Hle & _).
           apply bool_decide_eq_true in Hbelow.
           specialize (Hle k ek Hk). lia.
        -- subst seen. done.
    + (* the best so far stays *)
      destruct be as [i |], bs as [s |]; simpl in Hbest, Hbelow; try done.
      apply bool_decide_eq_false in Hbelow.
      destruct Hbest as (c & Hi & Hs & Hle & Hlt).
      exists c. split_and!.
      * by apply lookup_app_l_Some.
      * done.
      * intros k ek [[_ Hk] | [_ <-]]%lookup_snoc_Some; [by eapply Hle | lia].
      * intros k ek Hki [[_ Hk] | [-> _]]%lookup_snoc_Some; [by eapply Hlt |].
        apply lookup_lt_Some in Hi. lia.
Qed.

End Dispatch.

(** C6: for a floor inside the building and at least one car, the
    controller forwards the hall call to a car of least score that no
    earlier car equals in score (the score being the distance, less 2 for a
    car already going the requested way, plus 1 for a car that is moving or
    has a pending request); the controller's answer is that car's answer,
    and that car alone is changed.  The requested floor and the floors the
    cars stand on are taken in the range where the scores the code computes
    are exact ([exactFloor]). *)
Theorem callElevator_first_minimal_score
        (c : ElevatorController.t) (now floor : Z) (d : Direction) :
  ElevatorController.minFloor c <= floor <= ElevatorController.maxFloor c →
  ElevatorController.elevators c ≠ [] →
  exactFloor floor →
  Forall (fun car => exactFloor (Elevator.currentFloor car))
         (ElevatorController.elevators c) →
  ∃ i car,
    ElevatorController.elevators c !! i = Some car
    ∧ (∀ k ek, ElevatorController.elevators c !! k = Some ek →
               dispatchScore car floor d <= dispatchScore ek floor d)
    ∧ (∀ k ek, (k < i)%nat → ElevatorController.elevators c !! k = Some ek →
               dispatchScore car floor d < dispatchScore ek floor d)
    ∧ (∀ ek, ElevatorController.score ek floor d = dispatchScore ek floor d)
    ∧ fst (ElevatorController.callElevator c now floor d)
      = fst (Elevator.callElevator car now floor d)
    ∧ ElevatorController.elevators
        (snd (ElevatorController.callElevator c now floor d))
      = <[i := snd (Elevator.callElevator car now floor d)]>
          (ElevatorController.elevators c).
Proof.
  intros Hrange Hcars _ _.
  pose proof (findBest_bestOf floor d (ElevatorController.elevators c) []
                None None eq_refl) as Hbest.
  simpl in Hbest. unfold ElevatorController.callElevator.
  rewrite !bool_decide_eq_false_2 by lia. simpl.
  destruct (ElevatorController.findBest floor d 0
              (ElevatorController.elevators c) None None) as [[i |] [s |]];
    simpl in *; try done.
  destruct Hbest as (car & Hi & Hs & Hle & Hlt).
  exists i, car. rewrite Hi.
  destruct (Elevator.callElevator car now floor d) as [result car'].
  subst s. split_and!; try done.
  - intros k ek Hk. rewrite <- !score_dispatchScore. by eapply Hle.
  - intros k ek Hki Hk. rewrite <- !score_dispatchScore. by eapply Hlt.
  - intros ek. apply score_dispatchScore.
Qed.

Lemma callElevator_first_minimal_score_witness :
  ∃ i car,
    ElevatorController.elevators Demo.controller0 !! i = Some car
    ∧ (∀ k ek, ElevatorController.elevators Demo.controller0 !! k = Some ek →
               dispatchScore car 5 UP <= dispatchScore ek 5 UP)
    ∧ (∀ k ek, (k < i)%nat →
               ElevatorController.elevators Demo.controller0 !! k = Some ek →
               dispatchScore car 5 UP < dispatchScore ek 5 UP)
    ∧ (∀ ek, ElevatorController.score ek 5 UP = dispatchScore ek 5 UP)
    ∧ fst (ElevatorController.callElevator Demo.controller0 0 5 UP)
      = fst (Elevator.callElevator car 0 5 UP)
    ∧ ElevatorController.elevators
        (snd (ElevatorController.callElevator Demo.controller0 0 5 UP))
      = <[i := snd (Elevator.callElevator car 0 5 UP)]>
          (ElevatorController.elevators Demo.controller0).
Proof.
  apply (callElevator_first_minimal_score Demo.controller0 0 5 UP).
  - simpl. lia.
  - discriminate.
  - unfold exactFloor. lia.
  - repeat constructor; unfold exactFloor; simpl; lia.
Defined.

(** On floors in that range the numbers the code computes stay within the
    integers a double holds exactly: the distances of the fallback of
    [_getNextDestination], and every intermediate value of a score. *)
Lemma exactFloor_distance (a b : Z) :
  exactFloor a → exactFloor b →
  Z.abs (a - b) <= 2 ^ 52.
Proof. unfold exactFloor. lia. Qed.

Lemma exactFloor_score (car : Elevator.t) (floor : Z) (d : Direction) :
  exactFloor (Elevator.currentFloor car) → exactFloor floor →
  Z.abs (Elevator.currentFloor car - floor) <= 2 ^ 52
  ∧ - 2 <= Z.abs (Elevator.currentFloor car - floor) - 2
  ∧ - 2 <= ElevatorController.score car floor d <= 2 ^ 52 + 1
  ∧ 2 ^ 52 + 1 < 2 ^ 53.
Proof.
  intros Hc Hf. pose proof (exactFloor_distance _ _ Hc Hf) as Hd.
  unfold ElevatorController.score.
  repeat case_bool_decide; destruct (Elevator.isMoving car); simpl; lia.
Qed.

(** ** Destinations are pending floors *)

Lemma nextStop_in_allFloors (e : Elevator.t) (f : Z) :
  Elevator._getNextDestination e = Some f → f ∈ Elevator.allFloors e.
Proof.
  unfold Elevator._getNextDestination. intros Hd.
  case_bool_decide; [done |].
  destruct (Elevator.direction e); simpl in Hd;
    repeat case_match; simplify_eq;
    match goal with
    | H : filter _ _ = ?g :: ?gs |- Math_min ?g ?gs ∈ _ =>
        destruct (Math_min_spec gs g) as [Hin _]; rewrite <- H in Hin;
        by apply list_elem_of_filter in Hin as [_ ?]
    | H : filter _ _ = ?g :: ?gs |- Math_max ?g ?gs ∈ _ =>
        destruct (Math_max_spec gs g) as [Hin _]; rewrite <- H in Hin;
        by apply list_elem_of_filter in Hin as [_ ?]
    | |- foldl (Elevator.closer _) _ _ ∈ _ => apply closest_spec
    end.
Qed.

Lemma nextStop_eligible (e : Elevator.t) (f : Z) :
  Elevator._getNextDestination e = Some f → eligible e f.
Proof. intros Hd. by apply allFloors_eligible, nextStop_in_allFloors. Qed.

(** The destination is the current floor only for a car that is not Idle:
    the scans ahead return floors strictly above or below. *)
Lemma nextStop_here_not_idle (e : Elevator.t) :
  Elevator._getNextDestination e = Some (Elevator.currentFloor e) →
  Elevator.direction e ≠ IDLE.
Proof.
  unfold Elevator._getNextDestination. intros Hd Hidle.
  case_bool_decide; [done |]. rewrite Hidle in Hd.
  rewrite (bool_decide_eq_true_2 (IDLE = UP ∨ IDLE = IDLE)) in Hd by auto.
  rewrite (bool_decide_eq_true_2 (IDLE = DOWN ∨ IDLE = IDLE)) in Hd by auto.
  rewrite (bool_decide_eq_false_2 (IDLE ≠ IDLE)) in Hd by auto.
  destruct (filter (fun g => g > Elevator.currentFloor e) (Elevator.allFloors e))
    as [| g gs] eqn:Hup.
  - destruct (filter (fun g => g < Elevator.currentFloor e)
                     (Elevator.allFloors e)) as [| h hs] eqn:Hdown; [done |].
    destruct (Math_max_spec hs h) as [Hin _]. rewrite <- Hdown in Hin.
    apply list_elem_of_filter in Hin as [Hlt _]. simplify_eq. lia.
  - destruct (Math_min_spec gs g) as [Hin _]. rewrite <- Hup in Hin.
    apply list_elem_of_filter in Hin as [Hgt _]. simplify_eq. lia.
Qed.

(** ** Direction update *)

(** C2: a car at floor 5 going Up whose destination is floor 5 (the Down
    call that brought it there) keeps the direction Up through the move and
    through the whole cycle, although [_updateDirection] for that destination
    gives Idle: [_moveToFloor] returns before calling it. *)
Theorem direction_kept_when_destination_is_current_floor :
  Elevator.currentFloor Samples.arrivedForDownCall = 5
  ∧ Elevator.direction Samples.arrivedForDownCall = UP
  ∧ Elevator._getNextDestination Samples.arrivedForDownCall = Some 5
  ∧ Elevator.direction
      (Elevator._updateDirection 5 Samples.arrivedForDownCall) = IDLE
  ∧ Elevator.direction
      (Elevator._moveToFloor 5 Samples.arrivedForDownCall) = UP
  ∧ Elevator.direction (snd (Elevator.runCycle Samples.arrivedForDownCall)) = UP.
Proof. split_and!; vm_compute; reflexivity. Qed.

(** Whenever the destination is the current floor the car keeps a direction
    that is not Idle. *)
Lemma moveToFloor_here_keeps_direction (e : Elevator.t) :
  Elevator._getNextDestination e = Some (Elevator.currentFloor e) →
  Elevator.direction (Elevator._moveToFloor (Elevator.currentFloor e) e)
  = Elevator.direction e
  ∧ Elevator.direction e ≠ IDLE.
Proof.
  intros Hd. rewrite moveToFloor_same.
  split; [done | by apply nextStop_here_not_idle].
Qed.

(** For a destination away from the current floor the direction is set
    towards it, whatever it was. *)
Lemma runCycle_direction_towards (e : Elevator.t) (f : Z) :
  Elevator._getNextDestination e = Some f →
  f ≠ Elevator.currentFloor e →
  Elevator.direction (snd (Elevator.runCycle e))
  = if bool_decide (f > Elevator.currentFloor e) then UP else DOWN.
Proof.
  intros Hd Hne.
  destruct (runCycle_served e f Hd) as (_ & -> & _).
  by apply moveToFloor_direction.
Qed.

(** ** The current floor and the range *)

(** C9: a car built for floors 2 to 10 stands on floor 1, outside its
    range. *)
Theorem new_car_outside_its_range :
  Elevator.minFloor (Elevator.new 1 2 10) < Elevator.maxFloor (Elevator.new 1 2 10)
  ∧ Elevator.currentFloor (Elevator.new 1 2 10) = 1
  ∧ ¬ inRange (Elevator.new 1 2 10).
Proof. unfold inRange. simpl. lia. Qed.

(** X9: a car built with bounds that contain floor 1 stays on floors of its
    range whatever requests and cycles follow, and every floor it has
    pending lies in the range. *)
Lemma reachable_bounds_in_range (e : Elevator.t) :
  reachable e →
  Elevator.minFloor e <= 1 <= Elevator.maxFloor e →
  inRange e ∧ pendingValid e.
Proof.
  unfold inRange, pendingValid.
  induction 1 as [id lo hi | e floor _ IH | e now floor d _ IH | e _ IH].
  - simpl. intros ?. split_and!; [lia | lia | constructor | constructor].
  - unfold Elevator.requestFloor.
    destruct (Elevator._isValidFloor e floor) eqn:Hv; simpl; [| done].
    repeat case_match; simpl; try done.
    intros Hb. destruct (IH Hb) as (? & Hcab & ?). split_and!; try done; try lia.
    rewrite sort_asc_Permutation. apply Forall_app. split; [done |].
    apply Forall_singleton. unfold Elevator._isValidFloor in Hv.
    apply andb_true_iff in Hv as [?%bool_decide_eq_true ?%bool_decide_eq_true].
    lia.
  - unfold Elevator.callElevator.
    destruct (Elevator._isValidFloor e floor) eqn:Hv; simpl; [| done].
    repeat case_match; simpl; try done.
    intros Hb. destruct (IH Hb) as (? & ? & Hhall). split_and!; try done; try lia.
    apply Forall_app. split; [done |].
    apply Forall_singleton. simpl. unfold Elevator._isValidFloor in Hv.
    apply andb_true_iff in Hv as [?%bool_decide_eq_true ?%bool_decide_eq_true].
    lia.
  - destruct (Elevator._getNextDestination e) as [f |] eqn:Hd.
    + destruct (runCycle_served e f Hd)
        as (_ & _ & -> & -> & -> & -> & ->).
      intros Hb. destruct (IH Hb) as (Hcur & Hcab & Hhall).
      rewrite Forall_forall in Hcab. rewrite Forall_forall in Hhall.
      split; [| split].
      * apply nextStop_eligible in Hd as [Hin | (req & Hin & <- & _)].
        -- apply (Hcab _ Hin).
        -- apply (Hhall _ Hin).
      * apply Forall_forall. intros g Hg%splice_first_subseteq. by apply Hcab.
      * apply Forall_forall. intros r [_ Hr]%list_elem_of_filter. by apply Hhall.
    + unfold Elevator.runCycle. rewrite Hd. simpl. apply IH.
Qed.

(** ** Rounds of the driving loop *)

(** A car whose cycle reports work and leaves it as it was keeps every
    round reporting work. *)
Lemma stepAll_stuck_car (c : ElevatorController.t) (e : Elevator.t) :
  e ∈ ElevatorController.elevators c →
  Elevator.runCycle e = (true, e) →
  fst (ElevatorController.stepAll c) = true
  ∧ e ∈ ElevatorController.elevators (snd (ElevatorController.stepAll c)).
Proof.
  intros Hin%list_elem_of_In Hrun. unfold ElevatorController.stepAll. simpl.
  split.
  - apply existsb_exists. exists true. split; [| done].
    rewrite map_map. apply in_map_iff. exists e. by rewrite Hrun.
  - apply list_elem_of_In. rewrite map_map. apply in_map_iff.
    exists e. by rewrite Hrun.
Qed.

Lemma rounds_S (n : nat) (c : ElevatorController.t) :
  ElevatorController.rounds (S n) c
  = ElevatorController.rounds n (snd (ElevatorController.stepAll c)).
Proof. reflexivity. Qed.

Lemma rounds_stuck_car (n : nat) (c : ElevatorController.t) (e : Elevator.t) :
  e ∈ ElevatorController.elevators c →
  Elevator.runCycle e = (true, e) →
  fst (ElevatorController.stepAll (ElevatorController.rounds n c)) = true.
Proof.
  intros Hin Hrun. revert c Hin.
  induction n as [| n IH]; intros c Hin; simpl.
  - by apply (stepAll_stuck_car c e).
  - apply IH. by apply (stepAll_stuck_car c e).
Qed.

(** C1: in the scenario of the demo (two cars, floors 1 to 10, hall calls
    5 Up and 8 Down, cabin requests 7 and 3 on car 1, no request added
    afterwards) every round reports work, however many rounds have run:
    car 2 reaches floor 8 going Up and from then on each of its cycles serves
    floor 8 without retiring the Down call. *)
Theorem demo_rounds_never_report_idle (now : Z) (n : nat) :
  fst (ElevatorController.stepAll
         (ElevatorController.rounds n (Demo.controller3 now))) = true.
Proof.
  destruct n as [| n]; [vm_compute; reflexivity |].
  rewrite rounds_S.
  apply (rounds_stuck_car n _ (Samples.demoCar2Arrived now)).
  - apply (list_elem_of_lookup_2 _ 1%nat). vm_compute. reflexivity.
  - vm_compute. reflexivity.
Qed.

(** The stuck car on its own: its destination is its own floor, its cycle
    reports work and changes nothing. *)
Lemma demoCar2Arrived_stuck (now : Z) :
  Elevator._getNextDestination (Samples.demoCar2Arrived now) = Some 8
  ∧ Elevator.runCycle (Samples.demoCar2Arrived now)
    = (true, Samples.demoCar2Arrived now).
Proof. split; vm_compute; reflexivity. Qed.

(** ** The scenario of the demo *)

(** C8, as the code has it: the first hall call goes to car 1 and the
    second to car 2; car 1, with hall call 5 (Up) and cabin requests 3 and 7
    pending, is sent to floors 3, 5 and 7 in that order and then has no
    destination; car 2's first destination is floor 8, where its first cycle
    takes it. *)
Theorem demo_dispatch_and_visit_order (now : Z) :
  fst (ElevatorController.findBest 5 UP 0
         (ElevatorController.elevators Demo.controller0) None None) = Some 0%nat
  ∧ fst (ElevatorController.findBest 8 DOWN 0
           (ElevatorController.elevators (Demo.controller1 now)) None None)
    = Some 1%nat
  ∧ ∃ car1 car2,
      ElevatorController.elevators (Demo.controller3 now) !! 0%nat = Some car1
      ∧ ElevatorController.elevators (Demo.controller3 now) !! 1%nat = Some car2
      ∧ Elevator.hallRequests car1 = [FloorRequest.new 5 UP now]
      ∧ Elevator.floorRequests car1 = [3; 7]
      ∧ Elevator.hallRequests car2 = [FloorRequest.new 8 DOWN now]
      ∧ Elevator.floorRequests car2 = []
      ∧ Demo.destinations 4 car1 = [Some 3; Some 5; Some 7; None]
      ∧ Elevator._getNextDestination car2 = Some 8
      ∧ Elevator.currentFloor (snd (Elevator.runCycle car2)) = 8.
Proof.
  split_and!; [vm_compute; reflexivity | vm_compute; reflexivity |].
  eexists _, _.
  split; [vm_compute; reflexivity |]. split; [vm_compute; reflexivity |].
  split_and!; vm_compute; reflexivity.
Qed.

(** C8, as the claim has it: car 1's destinations are not 5, 7 and 3. *)
Lemma demo_visit_order_5_7_3_counterexample :
  ¬ ∃ car1,
      ElevatorController.elevators (Demo.controller3 0) !! 0%nat = Some car1
      ∧ Demo.destinations 3 car1 = [Some 5; Some 7; Some 3].
Proof.
  intros (car1 & Hcar & Hdest). vm_compute in Hcar.
  injection Hcar as <-. vm_compute in Hdest. discriminate.
Qed.


(** * Further properties of the code *)

(** ** Cabin requests *)

Lemma elem_of_sort_asc (l : list Z) (x : Z) : x ∈ sort_asc l ↔ x ∈ l.
Proof. by rewrite sort_asc_Permutation. Qed.

(** X1: asking for the same floor twice in a row gives the answer and the
    car that asking once gives. *)
Theorem requestFloor_twice_is_once (e : Elevator.t) (floor : Z) :
  Elevator.requestFloor (snd (Elevator.requestFloor e floor)) floor
  = Elevator.requestFloor e floor.
Proof.
  unfold Elevator.requestFloor at 2 3.
  destruct (Elevator._isValidFloor e floor) eqn:Hv; cbn [negb].
  - destruct (bool_decide (floor = Elevator.currentFloor e)
              && bool_decide (Elevator.doorState e = CLOSED)) eqn:Hhere.
    + simpl. unfold Elevator.requestFloor. by rewrite Hv, Hhere.
    + destruct (bool_decide (floor ∈ Elevator.floorRequests e)) eqn:Hin;
        cbn [negb snd].
      * unfold Elevator.requestFloor. by rewrite Hv, Hhere, Hin.
      * unfold Elevator.requestFloor, Elevator._isValidFloor in *. simpl.
        rewrite Hv, Hhere. cbn [negb].
        rewrite (bool_decide_eq_true_2 (floor ∈ sort_asc _)); [done |].
        apply elem_of_sort_asc, elem_of_app. right. apply list_elem_of_here.
  - simpl. unfold Elevator.requestFloor. by rewrite Hv.
Qed.

(** X2: a request for a floor of the range, unless the car stands there with
    closed doors, is accepted; the floor is pending afterwards; the queue is
    the old one when it held the floor and else a rearrangement of the old
    one with the floor added; nothing else of the car changes. *)
Theorem requestFloor_accepted (e : Elevator.t) (floor : Z) :
  Elevator.minFloor e <= floor <= Elevator.maxFloor e →
  ¬ (floor = Elevator.currentFloor e ∧ Elevator.doorState e = CLOSED) →
  fst (Elevator.requestFloor e floor) = true
  ∧ floor ∈ Elevator.floorRequests (snd (Elevator.requestFloor e floor))
  ∧ (if decide (floor ∈ Elevator.floorRequests e)
     then Elevator.floorRequests (snd (Elevator.requestFloor e floor))
          = Elevator.floorRequests e
     else Elevator.floorRequests (snd (Elevator.requestFloor e floor))
          ≡ₚ floor :: Elevator.floorRequests e)
  ∧ Elevator.set_floorRequests (Elevator.floorRequests e)
      (snd (Elevator.requestFloor e floor)) = e.
Proof.
  intros Hrange Hnot. unfold Elevator.requestFloor, Elevator._isValidFloor.
  rewrite !bool_decide_eq_true_2 by lia. cbn [andb negb].
  rewrite (proj2 (andb_false_iff _ _)); last first.
  { rewrite !bool_decide_eq_false.
    destruct (decide (floor = Elevator.currentFloor e)); [right | left]; tauto. }
  case_decide as Hin.
  - rewrite (bool_decide_eq_true_2 _ Hin). simpl.
    split_and!; [done | done | done | by destruct e].
  - rewrite (bool_decide_eq_false_2 _ Hin). simpl. split_and!.
    + done.
    + apply elem_of_sort_asc, elem_of_app. right. apply list_elem_of_here.
    + rewrite sort_asc_Permutation. apply Permutation_app_comm.
    + by destruct e.
Qed.

Lemma requestFloor_accepted_witness :
  fst (Elevator.requestFloor Samples.goingUp 7) = true
  ∧ 7 ∈ Elevator.floorRequests (snd (Elevator.requestFloor Samples.goingUp 7))
  ∧ (if decide (7 ∈ Elevator.floorRequests Samples.goingUp)
     then Elevator.floorRequests (snd (Elevator.requestFloor Samples.goingUp 7))
          = Elevator.floorRequests Samples.goingUp
     else Elevator.floorRequests (snd (Elevator.requestFloor Samples.goingUp 7))
          ≡ₚ 7 :: Elevator.floorRequests Samples.goingUp)
  ∧ Elevator.set_floorRequests (Elevator.floorRequests Samples.goingUp)
      (snd (Elevator.requestFloor Samples.goingUp 7)) = Samples.goingUp.
Proof.
  apply (requestFloor_accepted Samples.goingUp 7).
  - simpl. lia.
  - simpl. intros [? _]. lia.
Defined.

(** ** Hall requests *)

Lemma find_hall_None (l : list FloorRequest.t) (floor : Z) (d : Direction) :
  find (fun req => bool_decide (FloorRequest.floor req = floor)
                   && bool_decide (FloorRequest.direction req = d)) l = None
  ↔ (floor, d) ∉ map (fun req => (FloorRequest.floor req,
                                   FloorRequest.direction req)) l.
Proof.
  induction l as [| r l IH]; simpl.
  - split; [intros _; apply not_elem_of_nil | done].
  - rewrite not_elem_of_cons.
    destruct (bool_decide (FloorRequest.floor r = floor)
              && bool_decide (FloorRequest.direction r = d)) eqn:Hr.
    + apply andb_true_iff in Hr as [Hf%bool_decide_eq_true Hd%bool_decide_eq_true].
      subst. split; [done | intros [? _]; done].
    + rewrite IH. apply andb_false_iff in Hr.
      rewrite !bool_decide_eq_false in Hr.
      split; [| tauto]. intros Hl. split; [| done].
      intros Heq. injection Heq as Hf Hd. destruct Hr; congruence.
Qed.

(** X3: a hall call is accepted exactly when its floor is in the range and
    it is neither Up from the top floor nor Down from the bottom floor. *)
Theorem callElevator_accepts_iff (e : Elevator.t) (now floor : Z) (d : Direction) :
  fst (Elevator.callElevator e now floor d) = true
  ↔ Elevator.minFloor e <= floor <= Elevator.maxFloor e
    ∧ ¬ (floor = Elevator.maxFloor e ∧ d = UP)
    ∧ ¬ (floor = Elevator.minFloor e ∧ d = DOWN).
Proof.
  unfold Elevator.callElevator, Elevator._isValidFloor.
  repeat case_bool_decide; simpl; try (split; [done | intros; lia]);
    destruct d; simpl; try case_match; simpl;
    (split; [intros; try done; split_and!; try lia; intros [? ?]; done
            | intros (? & ? & ?); try done; tauto]).
Qed.

(** X4: an accepted hall call is pending afterwards under its floor and
    direction; the queue is the old one when it held that pair and else the
    old one with the new request at its end; nothing else of the car
    changes. *)
Theorem callElevator_accepted (e : Elevator.t) (now floor : Z) (d : Direction) :
  fst (Elevator.callElevator e now floor d) = true →
  (floor, d) ∈ hallKeys (snd (Elevator.callElevator e now floor d))
  ∧ (if decide ((floor, d) ∈ hallKeys e)
     then Elevator.hallRequests (snd (Elevator.callElevator e now floor d))
          = Elevator.hallRequests e
     else Elevator.hallRequests (snd (Elevator.callElevator e now floor d))
          = Elevator.hallRequests e ++ [FloorRequest.new floor d now])
  ∧ Elevator.set_hallRequests (Elevator.hallRequests e)
      (snd (Elevator.callElevator e now floor d)) = e.
Proof.
  unfold Elevator.callElevator, hallKeys.
  destruct (negb (Elevator._isValidFloor e floor)); [done |].
  destruct (_ || _); [done |].
  destruct (find _ (Elevator.hallRequests e)) as [r |] eqn:Hfind; simpl; intros _.
  - assert (Hin : (floor, d) ∈ map (fun req => (FloorRequest.floor req,
                                                FloorRequest.direction req))
                                   (Elevator.hallRequests e)).
    { destruct (decide ((floor, d) ∈ map (fun req => (FloorRequest.floor req,
                                                FloorRequest.direction req))
                                   (Elevator.hallRequests e))) as [? | Hn];
        [done |].
      apply find_hall_None in Hn. congruence. }
    rewrite decide_True by done. split_and!; [done | done | by destruct e].
  - apply find_hall_None in Hfind. rewrite decide_False by done.
    split_and!; [| done | by destruct e].
    rewrite map_app. apply elem_of_app. right. simpl. apply list_elem_of_here.
Qed.

Lemma callElevator_accepted_witness :
  (5, DOWN) ∈ hallKeys (snd (Elevator.callElevator Samples.goingUp 0 5 DOWN))
  ∧ (if decide ((5, DOWN) ∈ hallKeys Samples.goingUp)
     then Elevator.hallRequests (snd (Elevator.callElevator Samples.goingUp 0 5 DOWN))
          = Elevator.hallRequests Samples.goingUp
     else Elevator.hallRequests (snd (Elevator.callElevator Samples.goingUp 0 5 DOWN))
          = Elevator.hallRequests Samples.goingUp ++ [FloorRequest.new 5 DOWN 0])
  ∧ Elevator.set_hallRequests (Elevator.hallRequests Samples.goingUp)
      (snd (Elevator.callElevator Samples.goingUp 0 5 DOWN)) = Samples.goingUp.
Proof.
  apply (callElevator_accepted Samples.goingUp 0 5 DOWN). reflexivity.
Defined.

(** X5: the same hall call made again, at whatever later time, gives the
    answer and the car that making it once gives. *)
Theorem callElevator_twice_is_once
        (e : Elevator.t) (now later floor : Z) (d : Direction) :
  Elevator.callElevator (snd (Elevator.callElevator e now floor d)) later floor d
  = Elevator.callElevator e now floor d.
Proof.
  unfold Elevator.callElevator at 2 3.
  destruct (negb (Elevator._isValidFloor e floor)) eqn:Hv.
  { simpl. unfold Elevator.callElevator. by rewrite Hv. }
  destruct (bool_decide (floor = Elevator.maxFloor e) && bool_decide (d = UP)
            || bool_decide (floor = Elevator.minFloor e) && bool_decide (d = DOWN))
    eqn:Hedge.
  { simpl. unfold Elevator.callElevator. by rewrite Hv, Hedge. }
  destruct (find _ (Elevator.hallRequests e)) as [r |] eqn:Hfind; simpl.
  - unfold Elevator.callElevator. by rewrite Hv, Hedge, Hfind.
  - unfold Elevator.callElevator, Elevator._isValidFloor in *. simpl.
    rewrite Hv, Hedge.
    destruct (find _ (Elevator.hallRequests e ++ _)) as [r |] eqn:Hfind2;
      [done |].
    apply find_hall_None in Hfind2. exfalso. apply Hfind2.
    rewrite map_app. apply elem_of_app. right. apply list_elem_of_here.
Qed.

(** ** What every reachable car satisfies *)

Lemma splice_first_sublist (x : Z) (l : list Z) : splice_first x l `sublist_of` l.
Proof.
  induction l as [| y l IH]; simpl; [done |].
  case_decide; [by apply sublist_cons | by apply sublist_skip].
Qed.

Lemma StronglySorted_splice_first (R : relation Z) (x : Z) (l : list Z) :
  StronglySorted R l → StronglySorted R (splice_first x l).
Proof.
  induction 1 as [| y l Hl IH Hy]; simpl; [constructor |].
  case_decide; [done |]. constructor; [done |].
  rewrite Forall_forall in Hy. apply Forall_forall.
  intros z Hz%splice_first_subseteq. by apply Hy.
Qed.

Lemma StronglySorted_le_lt (l : list Z) :
  StronglySorted Z.le l → NoDup l → StronglySorted Z.lt l.
Proof.
  induction 1 as [| y l Hl IH Hy]; intros Hnd; [constructor |].
  apply NoDup_cons in Hnd as [Hnin Hnd]. constructor; [by apply IH |].
  rewrite Forall_forall in Hy. apply Forall_forall. intros z Hz.
  specialize (Hy z Hz). assert (y ≠ z) by (intros ->; done). lia.
Qed.

Lemma reachable_sorted_le (e : Elevator.t) :
  reachable e → StronglySorted Z.le (Elevator.floorRequests e).
Proof.
  induction 1 as [id lo hi | e floor _ IH | e now floor d _ IH | e _ IH].
  - constructor.
  - unfold Elevator.requestFloor. repeat (case_match; simpl; try done).
    apply StronglySorted_merge_sort; [apply _ | ].
    intros x y. lia.
  - unfold Elevator.callElevator. repeat (case_match; simpl; try done).
  - destruct (Elevator._getNextDestination e) as [f |] eqn:Hd.
    + destruct (runCycle_served e f Hd) as (_ & _ & _ & _ & _ & -> & _).
      by apply StronglySorted_splice_first.
    + unfold Elevator.runCycle. by rewrite Hd.
Qed.

(** X6: the cabin requests of a reachable car are in strictly ascending
    order: every floor in the queue is below all the floors after it. *)
Theorem reachable_cabin_queue_ascending (e : Elevator.t) :
  reachable e → StronglySorted Z.lt (Elevator.floorRequests e).
Proof.
  intros Hreach. apply StronglySorted_le_lt.
  - by apply reachable_sorted_le.
  - by apply reachable_NoDup.
Qed.

Lemma reachable_cabin_queue_ascending_witness :
  StronglySorted Z.lt (Elevator.floorRequests Samples.demoCar1).
Proof.
  apply (reachable_cabin_queue_ascending Samples.demoCar1).
  unfold Samples.demoCar1. do 3 constructor. apply reachable_new.
Defined.

(** X7: a reachable car holds at most one pending hall request for each
    floor and direction. *)
Theorem reachable_hall_requests_unique (e : Elevator.t) :
  reachable e → NoDup (hallKeys e).
Proof.
  unfold hallKeys.
  induction 1 as [id lo hi | e floor _ IH | e now floor d _ IH | e _ IH].
  - constructor.
  - unfold Elevator.requestFloor. repeat (case_match; simpl; try done).
  - unfold Elevator.callElevator.
    destruct (negb _); [done |]. destruct (_ || _); [done |].
    destruct (find _ _) eqn:Hfind; simpl; [done |].
    apply find_hall_None in Hfind.
    rewrite map_app. apply NoDup_app. split_and!; [done | | apply NoDup_singleton].
    intros x Hx ->%list_elem_of_singleton. done.
  - destruct (Elevator._getNextDestination e) as [f |] eqn:Hd.
    + destruct (runCycle_served e f Hd) as (_ & _ & _ & _ & _ & _ & ->).
      eapply sublist_NoDup; [exact IH |].
      apply (fmap_sublist _), sublist_filter.
    + unfold Elevator.runCycle. by rewrite Hd.
Qed.

Lemma reachable_hall_requests_unique_witness :
  NoDup (hallKeys Samples.demoCar1).
Proof.
  apply (reachable_hall_requests_unique Samples.demoCar1).
  unfold Samples.demoCar1. do 3 constructor. apply reachable_new.
Defined.

Lemma runCycle_doors_motion (e : Elevator.t) (f : Z) :
  Elevator._getNextDestination e = Some f →
  Elevator.doorState (snd (Elevator.runCycle e)) = CLOSED
  ∧ Elevator.isMoving (snd (Elevator.runCycle e))
    = if bool_decide (f = Elevator.currentFloor e)
      then Elevator.isMoving e else false.
Proof.
  intros Hd. unfold Elevator.runCycle. rewrite Hd. simpl.
  unfold Elevator._moveToFloor. by case_bool_decide.
Qed.

(** X8: a car used one call at a time, no request arriving while a cycle
    is suspended (that is what [reachable] covers), has between its cycles its
    doors closed and is not moving, and the floor it stands on is not among
    its cabin requests; a cabin request for that floor leaves the car as it
    is. *)
Theorem reachable_at_rest (e : Elevator.t) :
  reachable e →
  Elevator.doorState e = CLOSED
  ∧ Elevator.isMoving e = false
  ∧ (Elevator.currentFloor e ∉ Elevator.floorRequests e)
  ∧ snd (Elevator.requestFloor e (Elevator.currentFloor e)) = e.
Proof.
  intros Hreach.
  assert (Hrest : Elevator.doorState e = CLOSED
                  ∧ Elevator.isMoving e = false
                  ∧ Elevator.currentFloor e ∉ Elevator.floorRequests e).
  { induction Hreach as [id lo hi | e floor Hr IH | e now floor d _ IH | e Hr IH].
    - split_and!; [done | done | apply not_elem_of_nil].
    - destruct IH as (Hdoor & Hmove & Hcur).
      unfold Elevator.requestFloor.
      destruct (negb _); [done |].
      destruct (bool_decide (floor = _) && _) eqn:Hhere; [done |].
      destruct (negb (bool_decide (floor ∈ _))); simpl; [| done].
      split_and!; [done | done |].
      rewrite elem_of_sort_asc, elem_of_app, list_elem_of_singleton.
      intros [? | Heq]; [done |].
      apply andb_false_iff in Hhere. rewrite !bool_decide_eq_false in Hhere.
      destruct Hhere; congruence.
    - unfold Elevator.callElevator. repeat (case_match; simpl; try done).
    - destruct IH as (Hdoor & Hmove & Hcur).
      destruct (Elevator._getNextDestination e) as [f |] eqn:Hd.
      + destruct (runCycle_doors_motion e f Hd) as [-> ->].
        destruct (runCycle_served e f Hd) as (_ & _ & -> & _ & _ & -> & _).
        split_and!; [done | by case_bool_decide |].
        by apply splice_first_not_elem, reachable_NoDup.
      + unfold Elevator.runCycle. by rewrite Hd. }
  destruct Hrest as (Hdoor & Hmove & Hcur). split_and!; try done.
  unfold Elevator.requestFloor. destruct (negb _); [done |].
  rewrite (bool_decide_eq_true_2 (Elevator.currentFloor e = _)) by done.
  by rewrite (bool_decide_eq_true_2 (Elevator.doorState e = _)) by done.
Qed.

Lemma reachable_at_rest_witness :
  Elevator.doorState Samples.demoCar1 = CLOSED
  ∧ Elevator.isMoving Samples.demoCar1 = false
  ∧ (Elevator.currentFloor Samples.demoCar1
     ∉ Elevator.floorRequests Samples.demoCar1)
  ∧ snd (Elevator.requestFloor Samples.demoCar1
           (Elevator.currentFloor Samples.demoCar1)) = Samples.demoCar1.
Proof.
  apply (reachable_at_rest Samples.demoCar1).
  unfold Samples.demoCar1. do 3 constructor. apply reachable_new.
Defined.

Lemma reachable_bounds_in_range_witness :
  inRange Samples.demoCar1 ∧ pendingValid Samples.demoCar1.
Proof.
  apply (reachable_bounds_in_range Samples.demoCar1).
  - unfold Samples.demoCar1. do 3 constructor. apply reachable_new.
  - simpl. lia.
Defined.

(** ** Next stop: the scan downwards and the case of no stop *)

(** X10: a car going Down, or an Idle car with no eligible floor above it,
    that has an eligible floor strictly below its current floor is sent to
    the greatest such floor. *)
Theorem nextStop_down_is_maximum_below (e : Elevator.t) :
  Elevator.direction e = DOWN
  ∨ (Elevator.direction e = IDLE
     ∧ ∀ f, eligible e f → ¬ f > Elevator.currentFloor e) →
  (∃ f, eligible e f ∧ f < Elevator.currentFloor e) →
  ∃ m, Elevator._getNextDestination e = Some m
       ∧ eligible e m
       ∧ m < Elevator.currentFloor e
       ∧ ∀ f, eligible e f → f < Elevator.currentFloor e → f <= m.
Proof.
  intros Hdir (f & Hf & Hlt).
  unfold Elevator._getNextDestination.
  rewrite (allFloors_nonempty e f Hf).
  assert (Hup : (if bool_decide (Elevator.direction e = UP
                                 ∨ Elevator.direction e = IDLE)
                 then filter (fun g => g > Elevator.currentFloor e)
                             (Elevator.allFloors e)
                 else []) = []).
  { destruct Hdir as [-> | [-> Hnone]].
    - by rewrite bool_decide_eq_false_2 by (intros [|]; done).
    - rewrite bool_decide_eq_true_2 by auto.
      apply filter_empty_nil. intros x Hx. by apply Hnone, allFloors_eligible. }
  rewrite Hup.
  rewrite (bool_decide_eq_true_2 (Elevator.direction e = DOWN ∨ _))
    by (destruct Hdir as [-> | [-> _]]; auto).
  destruct (filter (fun g => g < Elevator.currentFloor e) (Elevator.allFloors e))
    as [| g gs] eqn:Hdown.
  - exfalso. eapply (filter_nil_not_elem_of _ _ f Hdown Hlt).
    by apply allFloors_eligible.
  - destruct (Math_max_spec gs g) as [Hin Hmax].
    exists (Math_max g gs). split; [done |].
    rewrite <- Hdown in Hin, Hmax.
    apply list_elem_of_filter in Hin as [Hm1 Hm2].
    split_and!; [by apply allFloors_eligible | done |].
    intros f' Hf' Hlt'. apply Hmax, list_elem_of_filter.
    split; [done | by apply allFloors_eligible].
Qed.

Lemma nextStop_down_is_maximum_below_witness :
  ∃ m, Elevator._getNextDestination MoreSamples.goingDown = Some m
       ∧ eligible MoreSamples.goingDown m
       ∧ m < Elevator.currentFloor MoreSamples.goingDown
       ∧ ∀ f, eligible MoreSamples.goingDown f →
              f < Elevator.currentFloor MoreSamples.goingDown → f <= m.
Proof.
  apply (nextStop_down_is_maximum_below MoreSamples.goingDown).
  - left. reflexivity.
  - exists 2. split; [| simpl; lia]. left. apply list_elem_of_here.
Defined.

Lemma idle_all_here_None (e : Elevator.t) :
  Elevator.direction e = IDLE →
  (∀ f, eligible e f → f = Elevator.currentFloor e) →
  Elevator._getNextDestination e = None.
Proof.
  intros Hdir Hhere.
  unfold Elevator._getNextDestination. case_bool_decide; [done |].
  rewrite Hdir.
  rewrite (bool_decide_eq_true_2 (IDLE = UP ∨ IDLE = IDLE)) by auto.
  rewrite (bool_decide_eq_true_2 (IDLE = DOWN ∨ IDLE = IDLE)) by auto.
  rewrite !filter_empty_nil
    by (intros x Hx%allFloors_eligible%Hhere; lia).
  by rewrite bool_decide_eq_false_2 by auto.
Qed.

Lemma nextStop_up_minimum_exists (e : Elevator.t) :
  Elevator.direction e = UP ∨ Elevator.direction e = IDLE →
  (∃ f, eligible e f ∧ f > Elevator.currentFloor e) →
  ∃ m, Elevator._getNextDestination e = Some m.
Proof.
  intros Hdir (f & Hf & Hgt).
  unfold Elevator._getNextDestination.
  rewrite (allFloors_nonempty e f Hf), (bool_decide_eq_true_2 _ Hdir).
  destruct (filter (fun g => g > Elevator.currentFloor e) (Elevator.allFloors e))
    as [| g gs] eqn:Hup; [| by eexists].
  exfalso. eapply (filter_nil_not_elem_of _ _ f Hup Hgt).
  by apply allFloors_eligible.
Qed.

Lemma nextStop_down_maximum_exists (e : Elevator.t) :
  Elevator.direction e = DOWN
  ∨ (Elevator.direction e = IDLE
     ∧ ∀ f, eligible e f → ¬ f > Elevator.currentFloor e) →
  (∃ f, eligible e f ∧ f < Elevator.currentFloor e) →
  ∃ m, Elevator._getNextDestination e = Some m.
Proof.
  intros Hdir (f & Hf & Hlt).
  unfold Elevator._getNextDestination.
  rewrite (allFloors_nonempty e f Hf).
  assert (Hup : (if bool_decide (Elevator.direction e = UP
                                 ∨ Elevator.direction e = IDLE)
                 then filter (fun g => g > Elevator.currentFloor e)
                             (Elevator.allFloors e)
                 else []) = []).
  { destruct Hdir as [-> | [-> Hnone]].
    - by rewrite bool_decide_eq_false_2 by (intros [|]; done).
    - rewrite bool_decide_eq_true_2 by auto.
      apply filter_empty_nil. intros x Hx. by apply Hnone, allFloors_eligible. }
  rewrite Hup.
  rewrite (bool_decide_eq_true_2 (Elevator.direction e = DOWN ∨ _))
    by (destruct Hdir as [-> | [-> _]]; auto).
  destruct (filter (fun g => g < Elevator.currentFloor e) (Elevator.allFloors e))
    as [| g gs] eqn:Hdown; [| by eexists].
  exfalso. eapply (filter_nil_not_elem_of _ _ f Hdown Hlt).
  by apply allFloors_eligible.
Qed.

Lemma nextStop_fallback_exists (e : Elevator.t) :
  (Elevator.direction e = UP
   ∧ ∀ f, eligible e f → ¬ f > Elevator.currentFloor e)
  ∨ (Elevator.direction e = DOWN
     ∧ ∀ f, eligible e f → ¬ f < Elevator.currentFloor e) →
  (∃ f, eligible e f) →
  ∃ m, Elevator._getNextDestination e = Some m.
Proof.
  intros Hside (f0 & Hf0).
  unfold Elevator._getNextDestination.
  rewrite (allFloors_nonempty e f0 Hf0).
  destruct (Elevator.allFloors e) as [| g gs] eqn:Hall.
  { apply allFloors_eligible in Hf0. rewrite Hall in Hf0.
    by apply elem_of_nil in Hf0. }
  rewrite <- Hall.
  destruct Hside as [[Hdir Hnone] | [Hdir Hnone]]; rewrite Hdir.
  - rewrite (bool_decide_eq_true_2 (UP = UP ∨ UP = IDLE)) by auto.
    rewrite filter_empty_nil
      by (intros x Hx; by apply Hnone, allFloors_eligible).
    rewrite (bool_decide_eq_false_2 (UP = DOWN ∨ UP = IDLE)) by (intros [|]; done).
    rewrite bool_decide_eq_true_2 by done. by eexists.
  - rewrite (bool_decide_eq_false_2 (DOWN = UP ∨ DOWN = IDLE))
      by (intros [|]; done).
    rewrite (bool_decide_eq_true_2 (DOWN = DOWN ∨ DOWN = IDLE)) by auto.
    rewrite filter_empty_nil
      by (intros x Hx; by apply Hnone, allFloors_eligible).
    rewrite bool_decide_eq_true_2 by done. by eexists.
Qed.


Lemma eligible_above_or_not (e : Elevator.t) :
  (∃ f, eligible e f ∧ f > Elevator.currentFloor e)
  ∨ (∀ f, eligible e f → ¬ f > Elevator.currentFloor e).
Proof.
  destruct (filter (fun g => g > Elevator.currentFloor e) (Elevator.allFloors e))
    as [| g gs] eqn:Hup.
  - right. intros f Hf%allFloors_eligible Hgt.
    by apply (filter_nil_not_elem_of _ _ f Hup Hgt).
  - left. exists g.
    assert (Hg : g ∈ filter (fun g => g > Elevator.currentFloor e)
                            (Elevator.allFloors e))
      by (rewrite Hup; apply list_elem_of_here).
    apply list_elem_of_filter in Hg as [? ?%allFloors_eligible]. done.
Qed.

Lemma eligible_below_or_not (e : Elevator.t) :
  (∃ f, eligible e f ∧ f < Elevator.currentFloor e)
  ∨ (∀ f, eligible e f → ¬ f < Elevator.currentFloor e).
Proof.
  destruct (filter (fun g => g < Elevator.currentFloor e) (Elevator.allFloors e))
    as [| g gs] eqn:Hdown.
  - right. intros f Hf%allFloors_eligible Hlt.
    by apply (filter_nil_not_elem_of _ _ f Hdown Hlt).
  - left. exists g.
    assert (Hg : g ∈ filter (fun g => g < Elevator.currentFloor e)
                            (Elevator.allFloors e))
      by (rewrite Hdown; apply list_elem_of_here).
    apply list_elem_of_filter in Hg as [? ?%allFloors_eligible]. done.
Qed.

(** X11: a car has no next stop exactly when it has no eligible floor, or
    it is Idle and every eligible floor is the floor it stands on. *)
Theorem nextStop_none_iff (e : Elevator.t) :
  Elevator._getNextDestination e = None
  ↔ (∀ f, ¬ eligible e f)
    ∨ (Elevator.direction e = IDLE
       ∧ ∀ f, eligible e f → f = Elevator.currentFloor e).
Proof.
  split.
  - intros Hnone.
    destruct (Elevator.allFloors e) as [| g gs] eqn:Hall.
    { left. intros f Hf%allFloors_eligible. rewrite Hall in Hf.
      by apply elem_of_nil in Hf. }
    right.
    assert (Hg : eligible e g)
      by (apply allFloors_eligible; rewrite Hall; apply list_elem_of_here).
    destruct (eligible_above_or_not e) as [Hup | Hnoup];
      destruct (eligible_below_or_not e) as [Hdown | Hnodown];
      destruct (Elevator.direction e) eqn:Hdir.
    all: try (destruct (nextStop_up_minimum_exists e) as [m Hm];
              [solve [auto] | done | congruence]).
    all: try (destruct (nextStop_down_maximum_exists e) as [m Hm];
              [solve [auto] | done | congruence]).
    all: try (destruct (nextStop_fallback_exists e) as [m Hm];
              [solve [auto] | by exists g | congruence]).
    split; [done |]. intros f Hf.
    specialize (Hnoup f Hf). specialize (Hnodown f Hf). lia.
  - intros [Hnone | [Hdir Hhere]].
    + unfold Elevator._getNextDestination.
      destruct (Elevator.allFloors e) as [| g gs] eqn:Hall; [done |].
      destruct (Hnone g). apply allFloors_eligible. rewrite Hall.
      apply list_elem_of_here.
    + by apply idle_all_here_None.
Qed.

(** ** What a cycle does to the car *)

Lemma eligible_pending (e : Elevator.t) (f : Z) :
  eligible e f → f ∈ pendingFloors e.
Proof.
  unfold pendingFloors. rewrite elem_of_app.
  intros [Hcab | (req & Hin & <- & _)]; [by left | right].
  apply list_elem_of_In, in_map. by apply list_elem_of_In.
Qed.

Lemma idle_eligible_pending (e : Elevator.t) (f : Z) :
  Elevator.direction e = IDLE → eligible e f ↔ f ∈ pendingFloors e.
Proof.
  intros Hdir. split; [apply eligible_pending |].
  unfold pendingFloors, eligible. rewrite elem_of_app.
  intros [Hcab | Hhall]; [by left | right].
  apply list_elem_of_In, in_map_iff in Hhall as (req & Hfloor & Hin).
  exists req. split_and!; [by apply list_elem_of_In | done | by left].
Qed.

Lemma runCycle_no_work (e : Elevator.t) :
  fst (Elevator.runCycle e) = false →
  Elevator._getNextDestination e = None
  ∧ snd (Elevator.runCycle e) = Elevator.set_direction IDLE e.
Proof.
  unfold Elevator.runCycle.
  destruct (Elevator._getNextDestination e); [done |]. by intros _.
Qed.

(** X12: a cycle that reports work ends with the car on a floor that was
    pending (as a cabin or hall request) when the cycle began. *)
Theorem working_cycle_ends_on_pending_floor (e : Elevator.t) :
  fst (Elevator.runCycle e) = true →
  Elevator.currentFloor (snd (Elevator.runCycle e)) ∈ pendingFloors e.
Proof.
  intros Hwork.
  destruct (Elevator._getNextDestination e) as [f |] eqn:Hd.
  - destruct (runCycle_served e f Hd) as (_ & _ & -> & _).
    by apply eligible_pending, nextStop_eligible.
  - unfold Elevator.runCycle in Hwork. by rewrite Hd in Hwork.
Qed.

Lemma working_cycle_ends_on_pending_floor_witness :
  Elevator.currentFloor (snd (Elevator.runCycle Samples.goingUp))
  ∈ pendingFloors Samples.goingUp.
Proof.
  apply (working_cycle_ends_on_pending_floor Samples.goingUp). reflexivity.
Defined.

(** X13: a cycle never adds a request: the cabin queue and the hall queue
    after it are what is left of the queues before it when some entries are
    dropped, the rest keeping their order. *)
Theorem runCycle_never_adds_requests (e : Elevator.t) :
  Elevator.floorRequests (snd (Elevator.runCycle e))
    `sublist_of` Elevator.floorRequests e
  ∧ Elevator.hallRequests (snd (Elevator.runCycle e))
      `sublist_of` Elevator.hallRequests e.
Proof.
  destruct (Elevator._getNextDestination e) as [f |] eqn:Hd.
  - destruct (runCycle_served e f Hd) as (_ & _ & _ & _ & _ & -> & ->).
    split; [apply splice_first_sublist | apply sublist_filter].
  - unfold Elevator.runCycle. rewrite Hd. simpl. done.
Qed.

(** X14: a cycle whose destination is not the floor the car stands on
    leaves the car on the destination with closed doors, not moving, and
    with the direction Up when it went to a higher floor and Down when it
    went to a lower one. *)
Theorem runCycle_moves_to_destination (e : Elevator.t) (f : Z) :
  Elevator._getNextDestination e = Some f →
  f ≠ Elevator.currentFloor e →
  Elevator.currentFloor (snd (Elevator.runCycle e)) = f
  ∧ Elevator.direction (snd (Elevator.runCycle e))
    = (if bool_decide (f > Elevator.currentFloor e) then UP else DOWN)
  ∧ Elevator.isMoving (snd (Elevator.runCycle e)) = false
  ∧ Elevator.doorState (snd (Elevator.runCycle e)) = CLOSED.
Proof.
  intros Hd Hne.
  destruct (runCycle_served e f Hd) as (_ & Hdir & Hcur & _).
  destruct (runCycle_doors_motion e f Hd) as [Hdoor Hmove].
  rewrite Hdir, Hcur, Hdoor, Hmove.
  rewrite (bool_decide_eq_false_2 (f = _)) by done.
  split_and!; try done. by apply moveToFloor_direction.
Qed.

Lemma runCycle_moves_to_destination_witness :
  Elevator.currentFloor (snd (Elevator.runCycle Samples.goingUp)) = 4
  ∧ Elevator.direction (snd (Elevator.runCycle Samples.goingUp))
    = (if bool_decide (4 > Elevator.currentFloor Samples.goingUp)
       then UP else DOWN)
  ∧ Elevator.isMoving (snd (Elevator.runCycle Samples.goingUp)) = false
  ∧ Elevator.doorState (snd (Elevator.runCycle Samples.goingUp)) = CLOSED.
Proof.
  apply (runCycle_moves_to_destination Samples.goingUp 4).
  - reflexivity.
  - simpl. lia.
Defined.

Lemma idle_away_Some (e : Elevator.t) :
  Elevator.direction e = IDLE →
  (∃ f, eligible e f ∧ f ≠ Elevator.currentFloor e) →
  ∃ m, Elevator._getNextDestination e = Some m.
Proof.
  intros Hdir (f & Hf & Hne).
  destruct (eligible_above_or_not e) as [Hup | Hnoup].
  - apply nextStop_up_minimum_exists; auto.
  - apply nextStop_down_maximum_exists; [by auto |].
    exists f. split; [done |]. specialize (Hnoup f Hf). lia.
Qed.

(** X15: after a cycle that reported no work, the next cycle reports work
    exactly when some pending floor, cabin or hall, is not the floor the car
    stands on: the first cycle made the car Idle, and for an Idle car every
    pending hall request counts. *)
Theorem work_after_no_work_iff (e : Elevator.t) :
  fst (Elevator.runCycle e) = false →
  fst (Elevator.runCycle (snd (Elevator.runCycle e))) = true
  ↔ ∃ f, f ∈ pendingFloors e ∧ f ≠ Elevator.currentFloor e.
Proof.
  intros [Hnone Hidle]%runCycle_no_work. rewrite Hidle.
  set (e' := Elevator.set_direction IDLE e).
  assert (Hpend : ∀ f, eligible e' f ↔ f ∈ pendingFloors e)
    by (intros f; by rewrite (idle_eligible_pending e')).
  split.
  - intros Hwork.
    destruct (Elevator._getNextDestination e') as [f |] eqn:Hd.
    + exists f. split; [by apply Hpend, nextStop_eligible |].
      intros ->. by apply (nextStop_here_not_idle e').
    + unfold Elevator.runCycle in Hwork. by rewrite Hd in Hwork.
  - intros (f & Hf & Hne).
    destruct (idle_away_Some e') as [m Hm]; [done | |].
    + exists f. split; [by apply Hpend | done].
    + unfold Elevator.runCycle. by rewrite Hm.
Qed.

Lemma work_after_no_work_iff_witness :
  fst (Elevator.runCycle (snd (Elevator.runCycle MoreSamples.calledBehind)))
  = true
  ↔ ∃ f, f ∈ pendingFloors MoreSamples.calledBehind
         ∧ f ≠ Elevator.currentFloor MoreSamples.calledBehind.
Proof.
  apply (work_after_no_work_iff MoreSamples.calledBehind). reflexivity.
Defined.

(** The sample of X15 in numbers: called Down to floor 3 while going Up at
    floor 5, the car first reports no work and then goes to floor 3. *)
Example calledBehind_no_work_then_work :
  Elevator.runCycle MoreSamples.calledBehind
  = (false, Elevator.set_direction IDLE MoreSamples.calledBehind)
  ∧ Elevator._getNextDestination
      (snd (Elevator.runCycle MoreSamples.calledBehind)) = Some 3.
Proof. split; vm_compute; reflexivity. Qed.

(** X16: a car that has reported no work in two cycles in a row stays as it
    is and reports no work in every further cycle. *)
Theorem no_work_twice_is_final (e : Elevator.t) (n : nat) :
  fst (Elevator.runCycle e) = false →
  fst (Elevator.runCycle (snd (Elevator.runCycle e))) = false →
  cycles n (snd (Elevator.runCycle e)) = snd (Elevator.runCycle e)
  ∧ fst (Elevator.runCycle (cycles n (snd (Elevator.runCycle e)))) = false.
Proof.
  intros [_ Hidle]%runCycle_no_work Hsecond. rewrite Hidle in *.
  set (e' := Elevator.set_direction IDLE e) in *.
  assert (Hfix : snd (Elevator.runCycle e') = e').
  { apply runCycle_no_work in Hsecond as [_ ->]. by destruct e. }
  assert (Hn : cycles n e' = e').
  { induction n as [| n IH]; simpl; [done |]. by rewrite Hfix. }
  by rewrite Hn.
Qed.

Lemma no_work_twice_is_final_witness :
  cycles 3 (snd (Elevator.runCycle Samples.idleCalledHere))
  = snd (Elevator.runCycle Samples.idleCalledHere)
  ∧ fst (Elevator.runCycle
           (cycles 3 (snd (Elevator.runCycle Samples.idleCalledHere)))) = false.
Proof.
  apply (no_work_twice_is_final Samples.idleCalledHere 3); reflexivity.
Defined.

(** ** Doors and motion within a cycle *)

(** The asynchronous methods end with the result and the car of the
    methods without suspension points. *)
Lemma Async_openDoors_final (e : Elevator.t) :
  snd (Async._openDoors e) = (tt, Elevator._openDoors e).
Proof. reflexivity. Qed.

Lemma Async_closeDoors_final (e : Elevator.t) :
  snd (Async._closeDoors e) = (tt, Elevator._closeDoors e).
Proof. reflexivity. Qed.

Lemma Async_moveToFloor_final (e : Elevator.t) (targetFloor : Z) :
  snd (Async._moveToFloor targetFloor e)
  = (tt, Elevator._moveToFloor targetFloor e).
Proof.
  unfold Async._moveToFloor, Elevator._moveToFloor, Async.bind, Async.this.
  by case_bool_decide.
Qed.

Lemma Async_runCycle_final (e : Elevator.t) :
  snd (Async.runCycle e) = Elevator.runCycle e.
Proof.
  unfold Async.runCycle, Elevator.runCycle, Async.bind, Async.this.
  destruct (Elevator._getNextDestination e) as [f |]; [| done].
  unfold Async.await, Async.bind.
  pose proof (Async_moveToFloor_final e f) as Hmove.
  destruct (Async._moveToFloor f e) as [seen1 [[] e1]]. simpl in Hmove.
  injection Hmove as ->. done.
Qed.

(** What is seen while [_moveToFloor] runs and once it is done. *)
Lemma Async_moveToFloor_seen (e : Elevator.t) (targetFloor : Z) :
  Elevator.doorState e = CLOSED →
  Elevator.isMoving e = false →
  map Async.seen (fst (Async._moveToFloor targetFloor e))
  = (if bool_decide (targetFloor = Elevator.currentFloor e) then []
     else [(true, CLOSED)])
  ∧ Forall (fun s => Elevator.currentFloor s = Elevator.currentFloor e)
           (fst (Async._moveToFloor targetFloor e))
  ∧ Async.seen (Elevator._moveToFloor targetFloor e) = (false, CLOSED).
Proof.
  intros Hdoor Hmove.
  unfold Async._moveToFloor, Elevator._moveToFloor, Async.bind, Async.this,
    Async.seen.
  case_bool_decide; simpl.
  - rewrite Hdoor, Hmove. split_and!; [done | constructor | done].
  - unfold Elevator._updateDirection.
    destruct (bool_decide (targetFloor > Elevator.currentFloor e));
      [| destruct (bool_decide (targetFloor < Elevator.currentFloor e))];
      simpl; rewrite Hdoor; (split_and!; [done | | done]);
      by repeat constructor.
Qed.

(** X17: a cycle started with closed doors and not moving is seen, at its
    suspension points, travelling with closed doors (only when the
    destination is another floor), then standing with closed doors, with
    doors opening, open, open, closing and closed, in this order; so the
    doors are closed whenever the car is seen moving, and whenever the doors
    are seen not closed the car stands, not moving, on the floor where the
    cycle ends.  A cycle without destination is never suspended.  The cycle
    ends with the answer and the car of [Elevator.runCycle]. *)
Theorem cycle_phases_doors_and_motion (e : Elevator.t) :
  Elevator.doorState e = CLOSED →
  Elevator.isMoving e = false →
  snd (Async.runCycle e) = Elevator.runCycle e
  ∧ map Async.seen (fst (Async.runCycle e))
    = match Elevator._getNextDestination e with
      | None => []
      | Some destination =>
          (if bool_decide (destination = Elevator.currentFloor e) then []
           else [(true, CLOSED)])
          ++ [(false, CLOSED); (false, OPENING); (false, OPEN);
              (false, OPEN); (false, CLOSING); (false, CLOSED)]
      end
  ∧ Forall (fun s => Elevator.isMoving s = true → Elevator.doorState s = CLOSED)
           (fst (Async.runCycle e))
  ∧ Forall (fun s => Elevator.doorState s ≠ CLOSED →
                     Elevator.isMoving s = false
                     ∧ Elevator.currentFloor s
                       = Elevator.currentFloor (snd (Elevator.runCycle e)))
           (fst (Async.runCycle e)).
Proof.
  intros Hdoor Hmove. split; [apply Async_runCycle_final |].
  unfold Async.runCycle, Elevator.runCycle, Async.bind, Async.this.
  destruct (Elevator._getNextDestination e) as [f |];
    [| split_and!; [done | constructor | constructor]].
  unfold Async.await, Async.bind.
  destruct (Async_moveToFloor_seen e f Hdoor Hmove) as (Hseen & Hfloor & Hend).
  pose proof (Async_moveToFloor_final e f) as Hfinal.
  destruct (moveToFloor_requests e f) as (_ & _ & _ & _ & Hcur).
  destruct (Async._moveToFloor f e) as [seen1 [[] e1]]. simpl in *.
  injection Hfinal as ->.
  unfold Async.seen in Hend. injection Hend as Hmove1 Hdoor1.
  rewrite <- app_assoc. simpl. split_and!.
  - rewrite map_app, Hseen. f_equal. unfold Async.seen. simpl.
    by rewrite Hmove1, Hdoor1.
  - apply Forall_app. split.
    + apply Forall_forall. intros s Hs%list_elem_of_In _.
      apply (in_map Async.seen) in Hs. rewrite Hseen in Hs.
      case_bool_decide; [done |]. destruct Hs as [Hs | []].
      unfold Async.seen in Hs. by injection Hs.
    + repeat (apply Forall_cons; split); try apply Forall_nil; simpl;
        intros; first [done | congruence].
  - apply Forall_app. split.
    + apply Forall_forall. intros s Hs%list_elem_of_In Hns.
      apply (in_map Async.seen) in Hs. rewrite Hseen in Hs.
      case_bool_decide; [done |]. destruct Hs as [Hs | []].
      unfold Async.seen in Hs. injection Hs as _ Hs. done.
    + repeat (apply Forall_cons; split); try apply Forall_nil; simpl;
        intros; first [done | split; congruence].
Qed.

Lemma cycle_phases_doors_and_motion_witness :
  snd (Async.runCycle Samples.demoCar1) = Elevator.runCycle Samples.demoCar1
  ∧ map Async.seen (fst (Async.runCycle Samples.demoCar1))
    = match Elevator._getNextDestination Samples.demoCar1 with
      | None => []
      | Some destination =>
          (if bool_decide (destination = Elevator.currentFloor Samples.demoCar1)
           then []
           else [(true, CLOSED)])
          ++ [(false, CLOSED); (false, OPENING); (false, OPEN);
              (false, OPEN); (false, CLOSING); (false, CLOSED)]
      end
  ∧ Forall (fun s => Elevator.isMoving s = true → Elevator.doorState s = CLOSED)
           (fst (Async.runCycle Samples.demoCar1))
  ∧ Forall (fun s => Elevator.doorState s ≠ CLOSED →
                     Elevator.isMoving s = false
                     ∧ Elevator.currentFloor s
                       = Elevator.currentFloor
                           (snd (Elevator.runCycle Samples.demoCar1)))
           (fst (Async.runCycle Samples.demoCar1)).
Proof.
  apply (cycle_phases_doors_and_motion Samples.demoCar1); reflexivity.
Defined.

(** The first cycle of car 1 of the demo and a cycle of the car that stays
    on its floor, by floor, motion and doors. *)
Example demoCar1_seen :
  map (fun s => (Elevator.currentFloor s, Async.seen s))
      (fst (Async.runCycle Samples.demoCar1))
  = [(1, (true, CLOSED)); (3, (false, CLOSED)); (3, (false, OPENING));
     (3, (false, OPEN)); (3, (false, OPEN)); (3, (false, CLOSING));
     (3, (false, CLOSED))].
Proof. vm_compute. reflexivity. Qed.

Example demoCar2Arrived_seen :
  map (fun s => (Elevator.currentFloor s, Async.seen s))
      (fst (Async.runCycle (Samples.demoCar2Arrived 0)))
  = [(8, (false, CLOSED)); (8, (false, OPENING)); (8, (false, OPEN));
     (8, (false, OPEN)); (8, (false, CLOSING)); (8, (false, CLOSED))].
Proof. vm_compute. reflexivity. Qed.

(** ** The controller *)

Lemma car_callElevator_false (e : Elevator.t) (now floor : Z) (d : Direction) :
  fst (Elevator.callElevator e now floor d) = false →
  snd (Elevator.callElevator e now floor d) = e.
Proof.
  unfold Elevator.callElevator. repeat (case_match; simpl; try done).
Qed.

Lemma car_callElevator_rest (e : Elevator.t) (now floor : Z) (d : Direction) :
  Elevator.set_hallRequests [] (snd (Elevator.callElevator e now floor d))
  = Elevator.set_hallRequests [] e.
Proof.
  unfold Elevator.callElevator. repeat (case_match; simpl; try done).
Qed.

Lemma findBest_no_cars (floor : Z) (d : Direction) :
  ElevatorController.findBest floor d 0 [] None None = (None, None).
Proof. reflexivity. Qed.

(** X18: the controller refuses a hall call for a floor outside the
    building and any call when it has no cars; and whenever it answers false,
    for whatever reason, the controller and all its cars are as before. *)
Theorem dispatch_failure_changes_nothing
        (c : ElevatorController.t) (now floor : Z) (d : Direction) :
  (floor < ElevatorController.minFloor c
   ∨ floor > ElevatorController.maxFloor c
   ∨ ElevatorController.elevators c = [] →
   fst (ElevatorController.callElevator c now floor d) = false)
  ∧ (fst (ElevatorController.callElevator c now floor d) = false →
     snd (ElevatorController.callElevator c now floor d) = c).
Proof.
  unfold ElevatorController.callElevator. split.
  - intros [Hlo | [Hhi | Hnone]].
    + by rewrite (bool_decide_eq_true_2 (floor < _)) by done.
    + rewrite (bool_decide_eq_true_2 (floor > _)) by done.
      by rewrite orb_true_r.
    + rewrite Hnone, findBest_no_cars. simpl. by destruct (_ || _).
  - destruct (_ || _); [done |].
    destruct (fst (ElevatorController.findBest _ _ _ _ _ _)) as [i |]; [| done].
    destruct (ElevatorController.elevators c !! i) as [car |] eqn:Hi; [| done].
    pose proof (car_callElevator_false car now floor d) as Hcar.
    destruct (Elevator.callElevator car now floor d) as [result car'].
    simpl in *. intros ->. rewrite Hcar by done.
    rewrite list_insert_id by done. by destruct c.
Qed.

Lemma dispatch_failure_changes_nothing_witness :
  fst (ElevatorController.callElevator Demo.controller0 0 11 UP) = false
  ∧ snd (ElevatorController.callElevator Demo.controller0 0 10 UP)
    = Demo.controller0.
Proof.
  split.
  - apply (dispatch_failure_changes_nothing Demo.controller0 0 11 UP).
    right. left. simpl. lia.
  - apply (dispatch_failure_changes_nothing Demo.controller0 0 10 UP).
    reflexivity.
Defined.

Lemma map_insert_same {A B : Type} (f : A → B) (l : list A) (i : nat) (x y : A) :
  l !! i = Some y → f x = f y → map f (<[i := x]> l) = map f l.
Proof.
  revert i. induction l as [| z l IH]; intros [| i] Hi Hf; simpl in *; try done.
  - injection Hi as ->. by rewrite Hf.
  - by rewrite IH.
Qed.

(** X19: a hall call through the controller, accepted or not, moves no
    car and changes no car's direction, doors or cabin requests: apart from
    the hall queues the cars are as before, and so are their number and the
    building's bounds. *)
Theorem dispatch_touches_only_hall_queues
        (c : ElevatorController.t) (now floor : Z) (d : Direction) :
  map (Elevator.set_hallRequests [])
      (ElevatorController.elevators
         (snd (ElevatorController.callElevator c now floor d)))
  = map (Elevator.set_hallRequests []) (ElevatorController.elevators c)
  ∧ ElevatorController.minFloor
      (snd (ElevatorController.callElevator c now floor d))
    = ElevatorController.minFloor c
  ∧ ElevatorController.maxFloor
      (snd (ElevatorController.callElevator c now floor d))
    = ElevatorController.maxFloor c.
Proof.
  unfold ElevatorController.callElevator.
  destruct (_ || _); [done |].
  destruct (fst (ElevatorController.findBest _ _ _ _ _ _)) as [i |]; [| done].
  destruct (ElevatorController.elevators c !! i) as [car |] eqn:Hi; [| done].
  pose proof (car_callElevator_rest car now floor d) as Hcar.
  destruct (Elevator.callElevator car now floor d) as [result car'].
  simpl in *. split_and!; [| done | done].
  by apply (map_insert_same _ _ _ _ car).
Qed.

Lemma makeElevators_lookup (n : nat) (first lo hi : Z) (i : nat) :
  (i < n)%nat →
  ElevatorController.makeElevators n first lo hi !! i
  = Some (Elevator.new (first + Z.of_nat i) lo hi).
Proof.
  revert first i. induction n as [| n IH]; intros first [| i] Hi; simpl;
    try lia.
  - by rewrite Z.add_0_r.
  - rewrite IH by lia. do 2 f_equal. lia.
Qed.

Lemma makeElevators_length (n : nat) (first lo hi : Z) :
  length (ElevatorController.makeElevators n first lo hi) = n.
Proof.
  revert first. induction n as [| n IH]; intros first; simpl; [done |].
  by rewrite IH.
Qed.

(** X20: a new controller for [n] cars holds exactly [n] cars, none when
    [n] is 0; the car at position [i] (from 0) has the identifier [i + 1],
    the building's bounds, and is a freshly built car. *)
Theorem new_controller_cars (n : nat) (lo hi : Z) :
  length (ElevatorController.elevators (ElevatorController.new n lo hi)) = n
  ∧ ∀ i, (i < n)%nat →
         ElevatorController.elevators (ElevatorController.new n lo hi) !! i
         = Some (Elevator.new (Z.of_nat i + 1) lo hi).
Proof.
  simpl. split; [apply makeElevators_length |].
  intros i Hi. rewrite makeElevators_lookup by done. do 2 f_equal. lia.
Qed.

Lemma new_controller_cars_witness :
  ElevatorController.elevators (ElevatorController.new 3 1 15) !! 2%nat
  = Some (Elevator.new (Z.of_nat 2 + 1) 1 15).
Proof.
  destruct (new_controller_cars 3 1 15) as [_ Hcar]. apply (Hcar 2%nat). lia.
Defined.

Example new_controller_no_cars (lo hi : Z) :
  ElevatorController.elevators (ElevatorController.new 0 lo hi) = [].
Proof. reflexivity. Qed.

(** ** Rounds *)

Lemma existsb_id_false (l : list bool) :
  existsb (fun result => result) l = false ↔ Forall (fun b => b = false) l.
Proof.
  induction l as [| b l IH]; simpl.
  - split; [constructor | done].
  - rewrite orb_false_iff, IH, Forall_cons. done.
Qed.

Lemma stepAll_no_work (c : ElevatorController.t) :
  fst (ElevatorController.stepAll c) = false
  ↔ Forall (fun car => fst (Elevator.runCycle car) = false)
           (ElevatorController.elevators c).
Proof.
  unfold ElevatorController.stepAll. simpl.
  rewrite existsb_id_false, map_map.
  induction (ElevatorController.elevators c) as [| car l IH]; simpl.
  - split; constructor.
  - rewrite !Forall_cons, IH. done.
Qed.

(** X21: a round reports work exactly when some car has a next stop; it
    keeps the number of cars and the building's bounds. *)
Theorem stepAll_reports_work_iff (c : ElevatorController.t) :
  (fst (ElevatorController.stepAll c) = true
   ↔ ∃ car, car ∈ ElevatorController.elevators c
            ∧ is_Some (Elevator._getNextDestination car))
  ∧ length (ElevatorController.elevators (snd (ElevatorController.stepAll c)))
    = length (ElevatorController.elevators c)
  ∧ ElevatorController.minFloor (snd (ElevatorController.stepAll c))
    = ElevatorController.minFloor c
  ∧ ElevatorController.maxFloor (snd (ElevatorController.stepAll c))
    = ElevatorController.maxFloor c.
Proof.
  split_and!; [| by simpl; rewrite !length_map | done | done].
  destruct (fst (ElevatorController.stepAll c)) eqn:Hwork.
  - split; [intros _ | done].
    apply not_false_iff_true in Hwork. rewrite stepAll_no_work in Hwork.
    apply not_Forall_Exists in Hwork; [| intros; apply _].
    apply Exists_exists in Hwork as (car & Hin & Hcar). exists car.
    split; [done |]. unfold compose, Elevator.runCycle in Hcar.
    destruct (Elevator._getNextDestination car); [by eexists | done].
  - split; [done |]. intros (car & Hin & [f Hf]).
    apply stepAll_no_work in Hwork. rewrite Forall_forall in Hwork.
    specialize (Hwork car Hin). unfold Elevator.runCycle in Hwork.
    by rewrite Hf in Hwork.
Qed.

Lemma no_work_twice_fixed (e : Elevator.t) :
  fst (Elevator.runCycle e) = false →
  Elevator.runCycle (snd (Elevator.runCycle e))
  = (fst (Elevator.runCycle (snd (Elevator.runCycle e))),
     snd (Elevator.runCycle e)) ∨
  fst (Elevator.runCycle (snd (Elevator.runCycle e))) = true.
Proof.
  intros [_ Hidle]%runCycle_no_work. rewrite Hidle.
  destruct (fst (Elevator.runCycle (Elevator.set_direction IDLE e))) eqn:Hsecond;
    [by right | left].
  apply runCycle_no_work in Hsecond as [Hnone _].
  unfold Elevator.runCycle. rewrite Hnone. by destruct e.
Qed.

(** X22: when two rounds in a row report no work, the controller stays as
    the first of them left it, and every further round reports no work. *)
Theorem no_work_rounds_are_final (c : ElevatorController.t) (n : nat) :
  fst (ElevatorController.stepAll c) = false →
  fst (ElevatorController.stepAll (snd (ElevatorController.stepAll c))) = false →
  ElevatorController.rounds n (snd (ElevatorController.stepAll c))
  = snd (ElevatorController.stepAll c)
  ∧ fst (ElevatorController.stepAll
           (ElevatorController.rounds n (snd (ElevatorController.stepAll c))))
    = false.
Proof.
  intros Hfirst Hsecond.
  set (c' := snd (ElevatorController.stepAll c)) in *.
  assert (Hfix : snd (ElevatorController.stepAll c') = c').
  { apply stepAll_no_work in Hfirst, Hsecond.
    subst c'. unfold ElevatorController.stepAll in *. simpl in *.
    f_equal. rewrite !map_map in *.
    apply map_ext_in. intros car Hin%list_elem_of_In.
    rewrite Forall_forall in Hfirst. specialize (Hfirst car Hin).
    rewrite Forall_forall in Hsecond.
    assert (Hin' : snd (Elevator.runCycle car)
                   ∈ map (fun x => snd (Elevator.runCycle x))
                         (ElevatorController.elevators c))
      by (apply list_elem_of_In, in_map_iff; exists car;
          split; [done | by apply list_elem_of_In]).
    specialize (Hsecond _ Hin').
    destruct (no_work_twice_fixed car Hfirst) as [-> | ?]; [done | congruence]. }
  assert (Hn : ElevatorController.rounds n c' = c').
  { induction n as [| n IH]; [done |]. by rewrite rounds_S, Hfix. }
  by rewrite Hn.
Qed.

Lemma no_work_rounds_are_final_witness :
  ElevatorController.rounds 4 (snd (ElevatorController.stepAll Demo.controller0))
  = snd (ElevatorController.stepAll Demo.controller0)
  ∧ fst (ElevatorController.stepAll
           (ElevatorController.rounds 4
              (snd (ElevatorController.stepAll Demo.controller0))))
    = false.
Proof.
  apply (no_work_rounds_are_final Demo.controller0 4); reflexivity.
Defined.

Lemma run_S (cycles : nat) (c : ElevatorController.t) :
  Interactive.run (S cycles) c
  = if fst (ElevatorController.stepAll c)
    then Interactive.run cycles (snd (ElevatorController.stepAll c))
    else snd (ElevatorController.stepAll c).
Proof. reflexivity. Qed.

(** X23: [run] with a budget of [cycles] rounds leaves the controller as
    some number [k] of rounds, at most [cycles], leave it; all rounds before
    the last reported work; and if it stopped short of the budget, at least
    one round ran and the last one reported no work. *)
Theorem run_is_bounded_rounds (cycles : nat) (c : ElevatorController.t) :
  ∃ k, (k <= cycles)%nat
       ∧ Interactive.run cycles c = ElevatorController.rounds k c
       ∧ (∀ j, (S j < k)%nat →
               fst (ElevatorController.stepAll (ElevatorController.rounds j c))
               = true)
       ∧ ((k < cycles)%nat →
          ∃ j, k = S j
               ∧ fst (ElevatorController.stepAll
                        (ElevatorController.rounds j c)) = false).
Proof.
  revert c. induction cycles as [| cycles IH]; intros c.
  - exists 0%nat. split_and!; [lia | done | intros; lia | intros; lia].
  - rewrite run_S. destruct (fst (ElevatorController.stepAll c)) eqn:Hwork.
    + destruct (IH (snd (ElevatorController.stepAll c)))
        as (k & Hk & Hrun & Hbefore & Hshort).
      exists (S k). split_and!; [lia | by rewrite rounds_S | |].
      * intros [| j] Hj; [done |]. rewrite rounds_S. apply Hbefore. lia.
      * intros Hlt. destruct Hshort as (j & -> & Hj); [lia |].
        exists (S j). by rewrite rounds_S.
    + exists 1%nat. split_and!; [lia | done | intros; lia |].
      intros _. by exists 0%nat.
Qed.

(** X24: [request] for a car number that is below 1 or above the number of
    cars leaves the controller as it is; for a car number in between, the
    car at that position, and no other, gets the cabin request. *)
Theorem request_by_car_number (c : ElevatorController.t) (elevatorId floor : Z) :
  (elevatorId < 1
   ∨ elevatorId > Z.of_nat (length (ElevatorController.elevators c)) →
   Interactive.request c elevatorId floor = c)
  ∧ (∀ car,
       1 <= elevatorId →
       ElevatorController.elevators c !! Z.to_nat (elevatorId - 1) = Some car →
       ElevatorController.elevators (Interactive.request c elevatorId floor)
       = <[Z.to_nat (elevatorId - 1) := snd (Elevator.requestFloor car floor)]>
           (ElevatorController.elevators c)
       ∧ ∀ j, j ≠ Z.to_nat (elevatorId - 1) →
              ElevatorController.elevators
                (Interactive.request c elevatorId floor) !! j
              = ElevatorController.elevators c !! j).
Proof.
  unfold Interactive.request. split.
  - intros [Hlo | Hhi].
    + by rewrite bool_decide_eq_true_2 by lia.
    + case_bool_decide; [done |].
      rewrite (lookup_ge_None_2 (ElevatorController.elevators c)); [done | lia].
  - intros car Hid Hcar. rewrite bool_decide_eq_false_2 by lia.
    rewrite Hcar. simpl. split; [done |].
    intros j Hj. by rewrite list_lookup_insert_ne.
Qed.

Lemma request_by_car_number_witness :
  Interactive.request Demo.controller0 3 7 = Demo.controller0.
Proof.
  apply (request_by_car_number Demo.controller0 3 7). right. simpl. lia.
Defined.

(** ** Names and snapshots *)

(** X25: [Direction.getName] gives the three directions three different
    names, none of them the name it gives every other number. *)
Theorem getName_distinguishes_directions :
  (∀ d1 d2, Direction_getName (Direction_value d1)
            = Direction_getName (Direction_value d2) → d1 = d2)
  ∧ (∀ d, Direction_getName (Direction_value d) ≠ "UNKNOWN"%string)
  ∧ (∀ v, v ≠ 1 → v ≠ -1 → v ≠ 0 → Direction_getName v = "UNKNOWN"%string).
Proof.
  split_and!.
  - intros [] []; vm_compute; intros Heq; done || discriminate Heq.
  - intros []; vm_compute; discriminate.
  - intros v H1 H2 H3. unfold Direction_getName, Direction_keys. simpl.
    by rewrite !bool_decide_eq_false_2 by done.
Qed.

Lemma map_eq_coarser {A B C : Type} (f : A → B) (g : A → C) (l1 l2 : list A) :
  (∀ x y, f x = f y → g x = g y) →
  map f l1 = map f l2 → map g l1 = map g l2.
Proof.
  intros Hfg. revert l2.
  induction l1 as [| x l1 IH]; intros [| y l2] Heq; simpl in *; try done.
  injection Heq as Hxy Hrest. f_equal; [by apply Hfg | by apply IH].
Qed.

(** X26: two cars with the same status have the same identifier, floor,
    direction, door state, motion flag, cabin queue, passengers and capacity,
    and the same hall requests by floor and direction, in the same order;
    the status does not show bounds, durations or request times. *)
Theorem getStatus_determines_car (e1 e2 : Elevator.t) :
  getStatus e1 = getStatus e2 →
  Elevator.elevatorId e1 = Elevator.elevatorId e2
  ∧ Elevator.currentFloor e1 = Elevator.currentFloor e2
  ∧ Elevator.direction e1 = Elevator.direction e2
  ∧ Elevator.doorState e1 = Elevator.doorState e2
  ∧ Elevator.isMoving e1 = Elevator.isMoving e2
  ∧ Elevator.floorRequests e1 = Elevator.floorRequests e2
  ∧ hallKeys e1 = hallKeys e2
  ∧ Elevator.currentPassengers e1 = Elevator.currentPassengers e2
  ∧ Elevator.capacity e1 = Elevator.capacity e2.
Proof.
  assert (Hname : ∀ d1 d2, Direction_getName (Direction_value d1)
                           = Direction_getName (Direction_value d2) → d1 = d2).
  { intros [] []; vm_compute; intros Heq; done || discriminate Heq. }
  unfold getStatus. intros Heq.
  injection Heq as Hid Hfloor Hdir Hdoor Hmove Hcab Hhall Hpass Hcap.
  split_and!; try done.
  - by apply Hname.
  - unfold hallKeys. eapply map_eq_coarser; [| exact Hhall].
    intros x y Hxy. injection Hxy as Hf Hd. f_equal; [done | by apply Hname].
Qed.

Lemma getStatus_determines_car_witness :
  Elevator.elevatorId Samples.demoCar1
  = Elevator.elevatorId (Elevator.set_hallRequests [FloorRequest.new 5 UP 9]
                           Samples.demoCar1)
  ∧ Elevator.currentFloor Samples.demoCar1
    = Elevator.currentFloor (Elevator.set_hallRequests [FloorRequest.new 5 UP 9]
                               Samples.demoCar1)
  ∧ Elevator.direction Samples.demoCar1
    = Elevator.direction (Elevator.set_hallRequests [FloorRequest.new 5 UP 9]
                            Samples.demoCar1)
  ∧ Elevator.doorState Samples.demoCar1
    = Elevator.doorState (Elevator.set_hallRequests [FloorRequest.new 5 UP 9]
                            Samples.demoCar1)
  ∧ Elevator.isMoving Samples.demoCar1
    = Elevator.isMoving (Elevator.set_hallRequests [FloorRequest.new 5 UP 9]
                           Samples.demoCar1)
  ∧ Elevator.floorRequests Samples.demoCar1
    = Elevator.floorRequests (Elevator.set_hallRequests [FloorRequest.new 5 UP 9]
                                Samples.demoCar1)
  ∧ hallKeys Samples.demoCar1
    = hallKeys (Elevator.set_hallRequests [FloorRequest.new 5 UP 9]
                  Samples.demoCar1)
  ∧ Elevator.currentPassengers Samples.demoCar1
    = Elevator.currentPassengers
        (Elevator.set_hallRequests [FloorRequest.new 5 UP 9] Samples.demoCar1)
  ∧ Elevator.capacity Samples.demoCar1
    = Elevator.capacity (Elevator.set_hallRequests [FloorRequest.new 5 UP 9]
                           Samples.demoCar1).
Proof.
  apply (getStatus_determines_car Samples.demoCar1
           (Elevator.set_hallRequests [FloorRequest.new 5 UP 9] Samples.demoCar1)).
  vm_compute. reflexivity.
Defined.

(** ** A cycle at the car's own floor *)

Lemma splice_first_absent (x : Z) (l : list Z) : x ∉ l → splice_first x l = l.
Proof.
  induction l as [| y l IH]; simpl; [done |].
  rewrite not_elem_of_cons. intros [Hne Hnin].
  rewrite decide_False by congruence. by rewrite IH.
Qed.

Lemma filter_keeps_all {A : Type} (P : A → Prop) `{!∀ x, Decision (P x)}
      (l : list A) :
  (∀ x, x ∈ l → P x) → filter P l = l.
Proof.
  induction l as [| y l IH]; intros Hall; [done |].
  rewrite filter_cons_True by (apply Hall, list_elem_of_here).
  rewrite IH; [done |]. intros x Hx. by apply Hall, list_elem_of_further.
Qed.

(** X27: when the next stop is the floor the car stands on (doors closed),
    the cycle reports work, the car is not Idle, and all the cycle does is
    retire requests at that floor under the direction the car already has.
    If that floor is not among the cabin requests and no hall request there
    has the car's direction, the cycle leaves the car exactly as it was. *)
Theorem cycle_at_own_floor (e : Elevator.t) :
  Elevator._getNextDestination e = Some (Elevator.currentFloor e) →
  Elevator.doorState e = CLOSED →
  Elevator.direction e ≠ IDLE
  ∧ Elevator.runCycle e
    = (true, Elevator._removeCompletedRequests (Elevator.currentFloor e) e)
  ∧ (Elevator.currentFloor e ∉ Elevator.floorRequests e →
     (∀ req, req ∈ Elevator.hallRequests e →
             FloorRequest.floor req = Elevator.currentFloor e →
             FloorRequest.direction req ≠ Elevator.direction e) →
     Elevator.runCycle e = (true, e)).
Proof.
  intros Hd Hdoor.
  pose proof (nextStop_here_not_idle e Hd) as Hdir.
  assert (Hrun : Elevator.runCycle e
                 = (true, Elevator._removeCompletedRequests
                            (Elevator.currentFloor e) e)).
  { unfold Elevator.runCycle. rewrite Hd, moveToFloor_same.
    unfold Elevator._closeDoors, Elevator._openDoors, Elevator._wait,
      Elevator._removeCompletedRequests. simpl.
    f_equal. destruct e; simpl in *. by subst. }
  split_and!; [done | done |].
  intros Hcab Hhall. rewrite Hrun. f_equal.
  unfold Elevator._removeCompletedRequests. simpl.
  rewrite splice_first_absent by done.
  rewrite filter_keeps_all; [by destruct e |].
  intros req Hin [Hfloor [Hsame | Hidle]]; [| done].
  by apply (Hhall req).
Qed.

Lemma cycle_at_own_floor_witness :
  Elevator.direction (Samples.demoCar2Arrived 0) ≠ IDLE
  ∧ Elevator.runCycle (Samples.demoCar2Arrived 0)
    = (true, Elevator._removeCompletedRequests
               (Elevator.currentFloor (Samples.demoCar2Arrived 0))
               (Samples.demoCar2Arrived 0))
  ∧ (Elevator.currentFloor (Samples.demoCar2Arrived 0)
     ∉ Elevator.floorRequests (Samples.demoCar2Arrived 0) →
     (∀ req, req ∈ Elevator.hallRequests (Samples.demoCar2Arrived 0) →
             FloorRequest.floor req
             = Elevator.currentFloor (Samples.demoCar2Arrived 0) →
             FloorRequest.direction req
             ≠ Elevator.direction (Samples.demoCar2Arrived 0)) →
     Elevator.runCycle (Samples.demoCar2Arrived 0)
     = (true, Samples.demoCar2Arrived 0)).
Proof.
  apply (cycle_at_own_floor (Samples.demoCar2Arrived 0)); reflexivity.
Defined.

(** X28: a cycle whose destination is among the cabin requests shortens
    the cabin queue by exactly one entry. *)
Theorem serving_cabin_floor_shortens_queue (e : Elevator.t) (f : Z) :
  Elevator._getNextDestination e = Some f →
  f ∈ Elevator.floorRequests e →
  S (length (Elevator.floorRequests (snd (Elevator.runCycle e))))
  = length (Elevator.floorRequests e).
Proof.
  intros Hd Hin.
  destruct (runCycle_served e f Hd) as (_ & _ & _ & _ & _ & -> & _).
  induction (Elevator.floorRequests e) as [| y l IH]; simpl.
  - by apply elem_of_nil in Hin.
  - case_decide as Hy; [done |]. simpl. f_equal. apply IH.
    apply elem_of_cons in Hin as [-> | Hin]; done.
Qed.

Lemma serving_cabin_floor_shortens_queue_witness :
  S (length (Elevator.floorRequests (snd (Elevator.runCycle Samples.demoCar1))))
  = length (Elevator.floorRequests Samples.demoCar1).
Proof.
  apply (serving_cabin_floor_shortens_queue Samples.demoCar1 3).
  - reflexivity.
  - apply list_elem_of_here.
Defined.
